(** * plarail: a shallow embedding of [t.py]

    The prototype describes toy-rail layouts: components carry joints,
    and [connect] glues a one-joint component onto another one.

    Python objects that are mutated after construction live in an
    explicit store.  Only [Joint] objects are ever mutated (the loop
    [j.position += dpos] of [_connect]), so the store holds joints and a
    joint reference is its address.  Every joint owns the numpy array
    made by [np.array(position, dtype=np.float)], which is only ever
    updated in place, so the array is kept inside the joint's cell.
    Components are never mutated once built and are plain values that
    hold joint references. *)

From Stdlib Require Import ZArith Floats Bool String.
From stdpp Require Import base tactics option list.

Local Open Scope Z_scope.

(** ** Geometry: three float64 coordinates *)

Definition vec3 : Type := float * float * float.

(** [a - b] on numpy arrays of shape (3,) *)
Definition vsub (a b : vec3) : vec3 :=
  let '(ax, ay, az) := a in
  let '(bx, by_, bz) := b in
  (PrimFloat.sub ax bx, PrimFloat.sub ay by_, PrimFloat.sub az bz).

(** [a + b] on numpy arrays of shape (3,) *)
Definition vadd (a b : vec3) : vec3 :=
  let '(ax, ay, az) := a in
  let '(bx, by_, bz) := b in
  (PrimFloat.add ax bx, PrimFloat.add ay by_, PrimFloat.add az bz).

(** [(a == b).all()]: coordinate-wise IEEE equality *)
Definition veqb (a b : vec3) : bool :=
  let '(ax, ay, az) := a in
  let '(bx, by_, bz) := b in
  PrimFloat.eqb ax bx && PrimFloat.eqb ay by_ && PrimFloat.eqb az bz.

(** ** Joints and the store *)

Module Joint.
(** The attributes set by [Joint.__init__] *)
Record t : Type := mk {
  position : vec3;
  rotation : Z;
  is_male : bool
}.
End Joint.

(** A reference to a [Joint] object: its address in the store *)
Abbreviation jref := nat (only parsing).

(** The store: the joint allocated [n]-th sits at index [n] *)
Abbreviation heap := (list Joint.t) (only parsing).

(** ** Components *)

(** The value of a component's [position] attribute: [EndPoint] keeps
    the caller's sequence as it was passed, [SelectedJoint] keeps the
    very array object of the joint it selects. *)
Inductive posval : Type :=
  | PosTuple (xs : list float)
  | PosArray (j : jref).

Inductive cls : Type :=
  | ConnectedComponent_cls
  | EndPoint_cls
  | Straight_cls
  | SelectedJoint_cls.

(** A component object: its class and its attributes.  An attribute
    that the class's [__init__] never sets is [None] here, and reading
    it raises [AttributeError]: no subclass calls [Component.__init__],
    so a [Straight] has neither [position] nor [rotation], and only
    [ConnectedComponent] and [SelectedJoint] have [children].  Every
    subclass sets [joints]. *)
Module Component.
#[warnings="-register-all"] Inductive t : Type := mk {
  class : cls;
  position : option posval;
  rotation : option Z;
  children : option (list t);
  joints : list jref
}.
End Component.

(** ** Exceptions, outcomes, and the store-passing monad *)

Inductive exn : Type :=
  | RuntimeError (msg : string)
  | NotImplementedError
  | IndexError
  | AssertionError
  | AttributeError (name : string)
  (** not a Python exception: a reference that no constructor returned *)
  | DanglingReference.

(** The three failures under the names the specification gives them:
    [RuntimeError("Ambiguous Connection")], the [NotImplementedError] of
    the branch that would need a rotation, and the [IndexError] of
    [component.joints[joint_index]]. *)
Definition AmbiguousConnection : exn := RuntimeError "Ambiguous Connection".
Definition UnsupportedOrientation : exn := NotImplementedError.
Definition InvalidJointIndex : exn := IndexError.

Inductive outcome (A : Type) : Type :=
  | Ok (a : A)
  | Raise (e : exn).
Arguments Ok {A} a.
Arguments Raise {A} e.

Definition M (A : Type) : Type := heap -> outcome A * heap.

Definition ret {A} (a : A) : M A := fun h => (Ok a, h).

Definition raise {A} (e : exn) : M A := fun h => (Raise e, h).

Definition bind {A B} (m : M A) (k : A -> M B) : M B :=
  fun h =>
    match m h with
    | (Ok a, h') => k a h'
    | (Raise e, h') => (Raise e, h')
    end.

Declare Scope py_scope.
Delimit Scope py_scope with py.
Notation "x <- m ;; k" := (bind m (fun x => k))
  (at level 100, m at next level, right associativity) : py_scope.
Notation "m ;;; k" := (bind m (fun _ => k))
  (at level 100, right associativity) : py_scope.
Local Open Scope py_scope.

(** A new object gets the next free address. *)
Definition alloc (J : Joint.t) : M jref :=
  fun h => (Ok (length h), h ++ [J]).

(** Reading any attribute of the joint behind a reference *)
Definition read (j : jref) : M Joint.t :=
  fun h =>
    match h !! j with
    | Some J => (Ok J, h)
    | None => (Raise DanglingReference, h)
    end.

(** [j.position += dpos]: the array of [j] is updated in place *)
Definition translate (dpos : vec3) (J : Joint.t) : Joint.t :=
  Joint.mk (vadd (Joint.position J) dpos) (Joint.rotation J) (Joint.is_male J).

Definition iadd_position (dpos : vec3) (j : jref) : M unit :=
  fun h =>
    match h !! j with
    | Some _ => (Ok tt, alter (translate dpos) j h)
    | None => (Raise DanglingReference, h)
    end.

(** [for x in xs: body(x)] *)
Fixpoint for_each {A} (body : A -> M unit) (xs : list A) : M unit :=
  match xs with
  | [] => ret tt
  | x :: xs' => body x ;;; for_each body xs'
  end.

(** [[x for x in xs if cond(x)]] *)
Fixpoint comprehension {A} (cond : A -> M bool) (xs : list A) : M (list A) :=
  match xs with
  | [] => ret []
  | x :: xs' =>
      b <- cond x ;;
      rest <- comprehension cond xs' ;;
      ret (if b : bool then x :: rest else rest)
  end.

(** [xs[i]] with Python's negative indices *)
Definition py_index {A} (xs : list A) (i : Z) : option A :=
  let n := Z.of_nat (length xs) in
  if 0 <=? i then xs !! Z.to_nat i
  else if - n <=? i then xs !! Z.to_nat (n + i)
  else None.

Definition getitem {A} (xs : list A) (i : Z) : M A :=
  match py_index xs i with
  | Some x => ret x
  | None => raise IndexError
  end.

(** [c.position] and [c.rotation] *)
Definition get_position (c : Component.t) : M posval :=
  match Component.position c with
  | Some p => ret p
  | None => raise (AttributeError "position")
  end.

Definition get_rotation (c : Component.t) : M Z :=
  match Component.rotation c with
  | Some r => ret r
  | None => raise (AttributeError "rotation")
  end.

(** ** The classes of [t.py] *)

(** [Joint(position, rotation, is_male)].  The coordinates are given as
    float64 values, that is, after the conversion of [np.array]; the
    first assertion wants three of them.  [rotation] is an integer, so
    the second assertion holds, and [is_male] is a boolean already. *)
Definition Joint (position : list float) (rotation : Z) (is_male : bool)
  : M jref :=
  match position with
  | [x; y; z] => alloc (Joint.mk (x, y, z) (rotation mod 8) is_male)
  | _ => raise AssertionError
  end.

Definition ConnectedComponent (position : posval) (rotation : Z)
    (children : list Component.t) (joints : list jref) : Component.t :=
  Component.mk ConnectedComponent_cls (Some position) (Some rotation)
    (Some children) joints.

Definition EndPoint (position : list float) (rotation : Z) (is_male : bool)
  : M Component.t :=
  j <- Joint position rotation is_male ;;
  ret (Component.mk EndPoint_cls (Some (PosTuple position)) (Some rotation)
         None [j]).

Definition Straight : M Component.t :=
  j0 <- Joint [0; 0; 0]%float 4 false ;;
  j1 <- Joint [1; 0; 0]%float 0 true ;;
  ret (Component.mk Straight_cls None None None [j0; j1]).

(** The joints left over: [[j for j in c2.joints if j != j2]].  [Joint]
    defines no [__eq__], so [!=] compares object identity. *)
Definition leftover (j2 : jref) (js : list jref) : list jref :=
  List.filter (fun j => negb (j =? j2)%nat) js.

(** The condition [j.is_male != j1.is_male] of the comprehension *)
Definition differs_in_gender (j1 j : jref) : M bool :=
  J <- read j ;;
  J1 <- read j1 ;;
  ret (negb (eqb (Joint.is_male J) (Joint.is_male J1))).

Definition _connect (c1 c2 : Component.t) : M Component.t :=
  j1 <- getitem (Component.joints c1) 0 ;;
  j2s <- comprehension (differs_in_gender j1) (Component.joints c2) ;;
  match j2s with
  | [j2] =>
      J1 <- read j1 ;;
      J2 <- read j2 ;;
      if negb (Joint.rotation J1 + Joint.rotation J2 =? 4)
      then raise NotImplementedError
      else
        let dpos := vsub (Joint.position J1) (Joint.position J2) in
        for_each (iadd_position dpos) (Component.joints c2) ;;;
        p <- get_position c1 ;;
        r <- get_rotation c1 ;;
        ret (ConnectedComponent p r [c1; c2]
               (leftover j2 (Component.joints c2)))
  | _ => raise AmbiguousConnection
  end.

Definition connect (c1 c2 : Component.t) : M Component.t :=
  if (length (Component.joints c1) =? 1)%nat then _connect c1 c2
  else if (length (Component.joints c2) =? 1)%nat then _connect c2 c1
  else raise AmbiguousConnection.

Definition SelectedJoint (component : Component.t) (joint_index : Z)
  : M Component.t :=
  j <- getitem (Component.joints component) joint_index ;;
  J <- read j ;;
  ret (Component.mk SelectedJoint_cls (Some (PosArray j)) (Some 0)
         (Some [component]) [j]).

(** The joints a component exposes, as the store shows them now *)
Definition exposed (h : heap) (c : Component.t) : list (option Joint.t) :=
  map (fun j => h !! j) (Component.joints c).

(** ** Pure counterparts of the store-passing code *)

(** A reference is allocated when some constructor returned it. *)
Definition allocated (h : heap) (j : jref) : Prop := is_Some (h !! j).

(** The test of the comprehension, read off the store *)
Definition differs (h : heap) (g : bool) (j : jref) : bool :=
  match h !! j with
  | Some J => negb (eqb (Joint.is_male J) g)
  | None => false
  end.

(** [j2s]: the joints of the target whose gender differs from [g] *)
Definition candidates (h : heap) (g : bool) (js : list jref) : list jref :=
  List.filter (differs h g) js.

(** The store after [for j in c2.joints: j.position += dpos] *)
Fixpoint translate_all (dpos : vec3) (js : list jref) (h : heap) : heap :=
  match js with
  | [] => h
  | j :: js' => translate_all dpos js' (alter (translate dpos) j h)
  end.

(** Which argument of [connect] becomes [c1] and which [c2] of
    [_connect]: the anchor and the target. *)
Definition anchor_target (c1 c2 : Component.t)
  : option (Component.t * Component.t) :=
  if (length (Component.joints c1) =? 1)%nat then Some (c1, c2)
  else if (length (Component.joints c2) =? 1)%nat then Some (c2, c1)
  else None.

(** Orientations of all joints in the store are normalised. *)
Definition normalised (h : heap) : Prop :=
  Forall (fun J => 0 <= Joint.rotation J < 8) h.

(** A computation keeps a property of the store, however it ends. *)
Definition preserves {A} (P : heap -> Prop) (m : M A) : Prop :=
  forall h r h', P h -> m h = (r, h') -> P h'.

(** Two stores hold the same joints up to their positions. *)
Definition same_tags (h h' : heap) : Prop :=
  length h' = length h /\
  forall j J, h !! j = Some J ->
    exists J', h' !! j = Some J' /\
      Joint.rotation J' = Joint.rotation J /\
      Joint.is_male J' = Joint.is_male J.

(** The anchor [c1] and the target [c2] have a matched pair in store
    [h]: [j1] is the anchor's first joint and [j2] the one joint of the
    target whose gender differs. *)
Definition matched (h : heap) (c1 c2 : Component.t)
    (j1 : jref) (J1 : Joint.t) (j2 : jref) (J2 : Joint.t) : Prop :=
  Component.joints c1 !! 0%nat = Some j1 /\
  h !! j1 = Some J1 /\
  Forall (allocated h) (Component.joints c2) /\
  candidates h (Joint.is_male J1) (Component.joints c2) = [j2] /\
  h !! j2 = Some J2.

(** [dpos = j1.position - j2.position] *)
Definition offset (J1 J2 : Joint.t) : vec3 :=
  vsub (Joint.position J1) (Joint.position J2).

(** A component as the constructors of the module build it, seen in
    store [h]: it lists each of its joints once, its joints are
    allocated, and if it has a single joint it has the [position] and
    [rotation] attributes that [_connect] reads from an anchor. *)
Definition well_built (h : heap) (c : Component.t) : Prop :=
  NoDup (Component.joints c) /\
  Forall (allocated h) (Component.joints c) /\
  (length (Component.joints c) = 1%nat ->
   is_Some (Component.position c) /\ is_Some (Component.rotation c)).

(** The float64 value of the Python literal [0.1] *)
Definition tenth : float := 0x1.999999999999ap-4%float.

(** ** Sample layouts

    The store and the components that [EndPoint(pos, r, g)] followed by
    [Straight()] build from the empty store: the end point's joint is
    object 0, the rail's female and male ends are objects 1 and 2. *)
Definition sample_store (pos : vec3) (r : Z) (g : bool) : heap :=
  [Joint.mk pos (r mod 8) g;
   Joint.mk (0, 0, 0)%float 4 false;
   Joint.mk (1, 0, 0)%float 0 true].

Definition sample_endpoint (pos : list float) (r : Z) : Component.t :=
  Component.mk EndPoint_cls (Some (PosTuple pos)) (Some r) None [0%nat].

Definition sample_straight : Component.t :=
  Component.mk Straight_cls None None None [1%nat; 2%nat].

(** [e = EndPoint(pos, r, g); s = Straight()] *)
Definition build_sample (pos : list float) (r : Z) (g : bool)
  : M (Component.t * Component.t) :=
  e <- EndPoint pos r g ;;
  s <- Straight ;;
  ret (e, s).

(** [a = Straight(); b = Straight()] *)
Definition build_two_straights : M (Component.t * Component.t) :=
  a <- Straight ;;
  b <- Straight ;;
  ret (a, b).

(** The doctest [connect(EndPoint((10, 0, 0), 0, True), Straight())] on
    the sample layout: the component it returns and the store it leaves. *)
Definition doctest_endpoint : Component.t :=
  sample_endpoint [10; 0; 0]%float 0.

Definition doctest_store : heap := sample_store (10, 0, 0)%float 0 true.

Definition doctest_result : Component.t :=
  ConnectedComponent (PosTuple [10; 0; 0]%float) 0
    [doctest_endpoint; sample_straight] [2%nat].

Definition doctest_store_after : heap :=
  [Joint.mk (10, 0, 0)%float 0 true;
   Joint.mk (10, 0, 0)%float 4 false;
   Joint.mk (11, 0, 0)%float 0 true].

(** A rail and a selector of its own first joint, as
    [c1 = Straight(); s = SelectedJoint(c1, 0)] builds them from the
    empty store: the selector shares object 0 with the rail. *)
Definition own_store : heap :=
  [Joint.mk (0, 0, 0)%float 4 false; Joint.mk (1, 0, 0)%float 0 true].

Definition own_straight : Component.t :=
  Component.mk Straight_cls None None None [0%nat; 1%nat].

Definition own_selector : Component.t :=
  Component.mk SelectedJoint_cls (Some (PosArray 0%nat)) (Some 0)
    (Some [own_straight]) [0%nat].

Definition build_own : M (Component.t * Component.t) :=
  c1 <- Straight ;;
  s <- SelectedJoint c1 0 ;;
  ret (c1, s).

(** Two end points that face each other, as
    [EndPoint((0, 0, 0), 0, True)] followed by
    [EndPoint((5, 0, 0), 4, False)] builds them from the empty store. *)
Definition pair_store : heap :=
  [Joint.mk (0, 0, 0)%float 0 true; Joint.mk (5, 0, 0)%float 4 false].

Definition pair_male : Component.t := sample_endpoint [0; 0; 0]%float 0.

Definition pair_female : Component.t :=
  Component.mk EndPoint_cls (Some (PosTuple [5; 0; 0]%float)) (Some 4)
    None [1%nat].

(** What [connect(pair_male, pair_female)] returns and leaves *)
Definition pair_result : Component.t :=
  ConnectedComponent (PosTuple [0; 0; 0]%float) 0 [pair_male; pair_female] [].

Definition pair_store_after : heap :=
  [Joint.mk (0, 0, 0)%float 0 true; Joint.mk (0, 0, 0)%float 4 false].

(** ** The store under translation *)

Section Store.
Implicit Types (h : heap) (j : jref) (js : list jref) (d : vec3).

(** A joint that the loop does not visit keeps its cell. *)
Lemma translate_all_notin d js h j :
  j ∉ js -> translate_all d js h !! j = h !! j.
Proof.
  revert h. induction js as [|k js IH]; intros h Hj; simpl; [done|].
  apply not_elem_of_cons in Hj as [Hne Hj].
  rewrite IH by done. by apply list_lookup_alter_ne.
Qed.

(** A joint that the loop visits once is moved once. *)
Lemma translate_all_in d js h j :
  NoDup js -> j ∈ js ->
  translate_all d js h !! j = translate d <$> h !! j.
Proof.
  revert h. induction js as [|k js IH]; intros h Hnd Hj; simpl.
  - by apply elem_of_nil in Hj.
  - apply NoDup_cons in Hnd as [Hk Hnd].
    apply elem_of_cons in Hj as [->|Hj].
    + rewrite translate_all_notin by done. apply list_lookup_alter_eq.
    + rewrite IH by done.
      rewrite list_lookup_alter_ne; [done|]. intros ->. done.
Qed.

Lemma same_tags_refl h : same_tags h h.
Proof. split; [done|]. intros j J HJ. by exists J. Qed.

Lemma same_tags_trans h1 h2 h3 :
  same_tags h1 h2 -> same_tags h2 h3 -> same_tags h1 h3.
Proof.
  intros [Hl1 H1] [Hl2 H2]. split; [congruence|].
  intros j J HJ.
  destruct (H1 j J HJ) as (J' & HJ' & Hr & Hg).
  destruct (H2 j J' HJ') as (J'' & HJ'' & Hr' & Hg').
  exists J''. split_and!; [done|congruence..].
Qed.

Lemma same_tags_alter d j h : same_tags h (alter (translate d) j h).
Proof.
  split; [apply length_alter|]. intros k J HJ.
  destruct (decide (j = k)) as [->|Hne].
  - exists (translate d J). by rewrite list_lookup_alter_eq, HJ.
  - exists J. by rewrite list_lookup_alter_ne.
Qed.

(** The loop changes positions only. *)
Lemma translate_all_same_tags d js h : same_tags h (translate_all d js h).
Proof.
  revert h. induction js as [|j js IH]; intros h; simpl.
  - apply same_tags_refl.
  - eapply same_tags_trans; [apply same_tags_alter|apply IH].
Qed.

Lemma same_tags_normalised h h' :
  same_tags h h' -> normalised h -> normalised h'.
Proof.
  intros [Hlen Htags] Hn. unfold normalised in *.
  rewrite Forall_lookup in Hn. apply Forall_lookup. intros j J' HJ'.
  assert (is_Some (h !! j)) as [J HJ].
  { apply lookup_lt_is_Some. rewrite <- Hlen. by eapply lookup_lt_Some. }
  destruct (Htags j J HJ) as (J'' & HJ'' & Hr & _).
  assert (J'' = J') by congruence. subst J''.
  rewrite Hr. by eapply Hn.
Qed.

Lemma same_tags_allocated h h' j :
  same_tags h h' -> allocated h j -> allocated h' j.
Proof.
  intros [_ Htags] [J HJ]. destruct (Htags j J HJ) as (J' & HJ' & _).
  by exists J'.
Qed.

End Store.

(** ** What the pieces of [_connect] compute *)

Section Pieces.
Implicit Types (h : heap) (j : jref) (js : list jref) (d : vec3).

Lemma differs_in_gender_run h j1 J1 j J :
  h !! j1 = Some J1 -> h !! j = Some J ->
  differs_in_gender j1 j h = (Ok (differs h (Joint.is_male J1) j), h).
Proof.
  intros H1 Hj. unfold differs_in_gender, bind, read, ret, differs.
  by rewrite Hj, H1.
Qed.

(** On allocated joints the comprehension is a filter and reads only. *)
Lemma comprehension_run h j1 J1 js :
  h !! j1 = Some J1 -> Forall (allocated h) js ->
  comprehension (differs_in_gender j1) js h
  = (Ok (candidates h (Joint.is_male J1) js), h).
Proof.
  intros H1. induction 1 as [|j js [J HJ] _ IH]; [done|].
  simpl. unfold bind at 1.
  rewrite (differs_in_gender_run h j1 J1 j J) by done.
  unfold bind at 1. rewrite IH. unfold ret.
  unfold candidates. simpl. by destruct (differs h (Joint.is_male J1) j).
Qed.

(** However it ends, the comprehension leaves the store alone; it
    either answers or meets a reference that was never allocated. *)
Lemma comprehension_cases h j1 js :
  (js = [] /\ comprehension (differs_in_gender j1) js h = (Ok [], h))
  \/ (exists J1, h !! j1 = Some J1 /\ Forall (allocated h) js)
  \/ comprehension (differs_in_gender j1) js h = (Raise DanglingReference, h).
Proof.
  induction js as [|j js IH]; [by left|]. right.
  destruct (h !! j1) as [J1|] eqn:H1.
  - destruct (h !! j) as [J|] eqn:Hj.
    + destruct IH as [[-> _]|[(J1' & _ & Hall)|Hr]].
      * left. exists J1. split; [done|].
        apply Forall_cons; split; [by exists J|apply Forall_nil_2].
      * left. exists J1. split; [done|].
        apply Forall_cons; split; [by exists J|done].
      * right. simpl. unfold bind at 1.
        rewrite (differs_in_gender_run h j1 J1 j J) by done.
        unfold bind at 1. by rewrite Hr.
    + right. simpl. unfold bind at 1.
      unfold differs_in_gender, bind, read. by rewrite Hj.
  - right. simpl. unfold bind at 1.
    unfold differs_in_gender, bind, read.
    destruct (h !! j); [by rewrite H1|done].
Qed.

(** On allocated joints the loop runs to its end. *)
Lemma for_each_run d js h :
  Forall (allocated h) js ->
  for_each (iadd_position d) js h = (Ok tt, translate_all d js h).
Proof.
  revert h. induction js as [|j js IH]; intros h Hall; [done|].
  apply Forall_cons in Hall as [[J HJ] Hall].
  simpl. unfold bind, iadd_position at 1. rewrite HJ.
  apply IH. eapply Forall_impl; [exact Hall|].
  intros k. apply same_tags_allocated, same_tags_alter.
Qed.

Lemma candidates_elem h g js j :
  j ∈ candidates h g js -> j ∈ js /\ differs h g j = true.
Proof.
  unfold candidates. rewrite !list_elem_of_In, filter_In. done.
Qed.

(** The leftover joints are the target's joints without the matched
    one, in their order. *)
Lemma leftover_elem j2 js j : j ∈ leftover j2 js <-> j ∈ js /\ j ≠ j2.
Proof.
  unfold leftover. rewrite !list_elem_of_In, filter_In.
  rewrite negb_true_iff, Nat.eqb_neq. done.
Qed.

Lemma leftover_notin j2 js : j2 ∉ js -> leftover j2 js = js.
Proof.
  induction js as [|j js IH]; intros Hn; [done|].
  apply not_elem_of_cons in Hn as [Hne Hn]. unfold leftover in *. simpl.
  destruct (Nat.eqb_spec j j2); [congruence|]. simpl. by rewrite IH.
Qed.

Lemma leftover_split j2 pre post :
  j2 ∉ pre -> j2 ∉ post -> leftover j2 (pre ++ j2 :: post) = pre ++ post.
Proof.
  intros Hpre Hpost. unfold leftover. rewrite List.filter_app. simpl.
  rewrite Nat.eqb_refl. simpl.
  fold (leftover j2 pre) (leftover j2 post).
  by rewrite !leftover_notin.
Qed.
End Pieces.

(** ** [_connect] and [connect], case by case *)

Section Connect.
Implicit Types (h : heap) (j : jref) (js : list jref).
Implicit Types (c : Component.t).

(** A filter that keeps one element keeps one occurrence of it. *)
Lemma filter_one_occurrence {A} (f : A -> bool) (l : list A) (x : A) :
  List.filter f l = [x] ->
  exists pre post, l = pre ++ x :: post /\ f x = true /\
    Forall (fun y => f y = false) pre /\ Forall (fun y => f y = false) post.
Proof.
  induction l as [|y l IH]; simpl; [done|].
  destruct (f y) eqn:Hy.
  - intros [= -> Hl]. exists [], l. split_and!; [done|done|done|].
    apply Forall_forall. intros z Hz.
    destruct (f z) eqn:Hfz; [|done].
    assert (In z (List.filter f l)) as Hin.
    { apply filter_In. split; [by apply list_elem_of_In|done]. }
    rewrite Hl in Hin. destruct Hin.
  - intros Hl. destruct (IH Hl) as (pre & post & -> & Hx & Hpre & Hpost).
    exists (y :: pre), post. split_and!; [done|done| |done].
    by apply Forall_cons.
Qed.

(** The matched joint occurs once among the target's joints. *)
Lemma candidates_singleton h g js j2 :
  candidates h g js = [j2] ->
  exists pre post, js = pre ++ j2 :: post /\ (j2 ∉ pre) /\ (j2 ∉ post) /\
    differs h g j2 = true.
Proof.
  intros Hf. apply filter_one_occurrence in Hf
    as (pre & post & -> & Hx & Hpre & Hpost).
  exists pre, post. split_and!; [done| | |done].
  - intros Hin. rewrite Forall_forall in Hpre.
    specialize (Hpre _ Hin). congruence.
  - intros Hin. rewrite Forall_forall in Hpost.
    specialize (Hpost _ Hin). congruence.
Qed.

(** [c1.joints[0]] *)
Lemma getitem_first {A} (xs : list A) h :
  getitem xs 0 h =
    match xs !! 0%nat with
    | Some x => (Ok x, h)
    | None => (Raise IndexError, h)
    end.
Proof. unfold getitem, py_index. by destruct xs. Qed.

(** [_connect] on allocated joints, as one case distinction *)
Lemma _connect_run h (c1 c2 : Component.t) j1 J1 :
  Component.joints c1 !! 0%nat = Some j1 ->
  h !! j1 = Some J1 ->
  Forall (allocated h) (Component.joints c2) ->
  _connect c1 c2 h =
    match candidates h (Joint.is_male J1) (Component.joints c2) with
    | [j2] =>
        match h !! j2 with
        | Some J2 =>
            if Joint.rotation J1 + Joint.rotation J2 =? 4 then
              let h' :=
                translate_all (offset J1 J2) (Component.joints c2) h in
              match Component.position c1, Component.rotation c1 with
              | Some p, Some r =>
                  (Ok (ConnectedComponent p r [c1; c2]
                         (leftover j2 (Component.joints c2))), h')
              | None, _ => (Raise (AttributeError "position"), h')
              | Some _, None => (Raise (AttributeError "rotation"), h')
              end
            else (Raise NotImplementedError, h)
        | None => (Raise DanglingReference, h)
        end
    | _ => (Raise AmbiguousConnection, h)
    end.
Proof.
  intros Hj1 HJ1 Hall. unfold _connect.
  unfold bind at 1. rewrite getitem_first, Hj1.
  unfold bind at 1. rewrite (comprehension_run h j1 J1) by done.
  destruct (candidates h (Joint.is_male J1) (Component.joints c2))
    as [|j2 [|? ?]]; [done| |done].
  unfold bind at 1, read at 1. rewrite HJ1.
  unfold bind at 1, read at 1.
  destruct (h !! j2) as [J2|]; [|done].
  destruct (Joint.rotation J1 + Joint.rotation J2 =? 4); [|done].
  simpl. unfold bind at 1. rewrite for_each_run by done.
  unfold bind, get_position, get_rotation, ret, raise.
  by destruct (Component.position c1), (Component.rotation c1).
Qed.

(** Outside that case [_connect] raises and the store is as before. *)
Lemma _connect_allocated_or_raise h (c1 c2 : Component.t) :
  (exists j1 J1, Component.joints c1 !! 0%nat = Some j1 /\
     h !! j1 = Some J1 /\ Forall (allocated h) (Component.joints c2))
  \/ (exists e, _connect c1 c2 h = (Raise e, h) /\
        forall name, e ≠ AttributeError name).
Proof.
  destruct (Component.joints c1 !! 0%nat) as [j1|] eqn:Hj1.
  - destruct (comprehension_cases h j1 (Component.joints c2))
      as [[Hnil Hr]|[(J1 & HJ1 & Hall)|Hr]].
    + right. exists AmbiguousConnection. split; [|done].
      unfold _connect. unfold bind at 1. rewrite getitem_first, Hj1.
      unfold bind at 1. by rewrite Hr.
    + left. by exists j1, J1.
    + right. exists DanglingReference. split; [|done].
      unfold _connect. unfold bind at 1. rewrite getitem_first, Hj1.
      unfold bind at 1. by rewrite Hr.
  - right. exists IndexError. split; [|done].
    unfold _connect. unfold bind at 1. by rewrite getitem_first, Hj1.
Qed.

(** With a matched pair a half-turn apart [_connect] moves the target
    and then builds the result from the anchor's attributes. *)
Lemma _connect_matched h (c1 c2 : Component.t) j1 J1 j2 J2 :
  matched h c1 c2 j1 J1 j2 J2 ->
  Joint.rotation J1 + Joint.rotation J2 = 4 ->
  _connect c1 c2 h =
    (match Component.position c1, Component.rotation c1 with
     | Some p, Some r =>
         Ok (ConnectedComponent p r [c1; c2]
               (leftover j2 (Component.joints c2)))
     | None, _ => Raise (AttributeError "position")
     | Some _, None => Raise (AttributeError "rotation")
     end,
     translate_all (offset J1 J2) (Component.joints c2) h).
Proof.
  intros (Hj1 & HJ1 & Hall & Hc & HJ2) Hsum.
  rewrite (_connect_run h c1 c2 j1 J1) by done.
  rewrite Hc, HJ2. apply Z.eqb_eq in Hsum. rewrite Hsum. simpl.
  by destruct (Component.position c1), (Component.rotation c1).
Qed.

Lemma _connect_unsupported h (c1 c2 : Component.t) j1 J1 j2 J2 :
  matched h c1 c2 j1 J1 j2 J2 ->
  Joint.rotation J1 + Joint.rotation J2 ≠ 4 ->
  _connect c1 c2 h = (Raise NotImplementedError, h).
Proof.
  intros (Hj1 & HJ1 & Hall & Hc & HJ2) Hsum.
  rewrite (_connect_run h c1 c2 j1 J1) by done.
  rewrite Hc, HJ2. apply Z.eqb_neq in Hsum. by rewrite Hsum.
Qed.

Lemma _connect_ambiguous h (c1 c2 : Component.t) j1 J1 :
  Component.joints c1 !! 0%nat = Some j1 ->
  h !! j1 = Some J1 ->
  Forall (allocated h) (Component.joints c2) ->
  length (candidates h (Joint.is_male J1) (Component.joints c2)) ≠ 1%nat ->
  _connect c1 c2 h = (Raise AmbiguousConnection, h).
Proof.
  intros Hj1 HJ1 Hall Hlen.
  rewrite (_connect_run h c1 c2 j1 J1) by done.
  by destruct (candidates h (Joint.is_male J1) (Component.joints c2))
    as [|j2 [|? ?]].
Qed.

(** Every run of [_connect] is one of: a failure before the loop, which
    leaves the store as it was, or a matched pair a half-turn apart. *)
Lemma _connect_inv h (c1 c2 : Component.t) r h' :
  _connect c1 c2 h = (r, h') ->
  (exists e, r = Raise e /\ h' = h /\ forall name, e ≠ AttributeError name)
  \/ (exists j1 J1 j2 J2, matched h c1 c2 j1 J1 j2 J2 /\
        Joint.rotation J1 + Joint.rotation J2 = 4).
Proof.
  intros Hrun.
  destruct (_connect_allocated_or_raise h c1 c2)
    as [(j1 & J1 & Hj1 & HJ1 & Hall)|(e & He & Hne)].
  - rewrite (_connect_run h c1 c2 j1 J1) in Hrun by done.
    destruct (candidates h (Joint.is_male J1) (Component.joints c2))
      as [|j2 [|? ?]] eqn:Hc;
      [left; exists AmbiguousConnection; by simplify_eq| |
       left; exists AmbiguousConnection; by simplify_eq].
    destruct (h !! j2) as [J2|] eqn:HJ2;
      [|left; exists DanglingReference; by simplify_eq].
    destruct (Z.eqb_spec (Joint.rotation J1 + Joint.rotation J2) 4)
      as [Hsum|Hsum]; [|left; exists NotImplementedError; by simplify_eq].
    right. exists j1, J1, j2, J2. by repeat split.
  - left. exists e. rewrite He in Hrun. by simplify_eq.
Qed.

(** [connect] hands its arguments to [_connect] as anchor and target. *)
Lemma connect_anchor_target (c1 c2 : Component.t) :
  connect c1 c2 =
    match anchor_target c1 c2 with
    | Some (anchor, target) => _connect anchor target
    | None => raise AmbiguousConnection
    end.
Proof.
  unfold connect, anchor_target.
  by destruct (length (Component.joints c1) =? 1)%nat,
              (length (Component.joints c2) =? 1)%nat.
Qed.

Lemma anchor_target_one (c1 c2 anchor target : Component.t) :
  anchor_target c1 c2 = Some (anchor, target) ->
  exists j1, Component.joints anchor = [j1].
Proof.
  unfold anchor_target. intros H.
  destruct (Nat.eqb_spec (length (Component.joints c1)) 1) as [H1|H1].
  - injection H as <- <-.
    destruct (Component.joints c1) as [|j1 [|? ?]]; try done. by exists j1.
  - destruct (Nat.eqb_spec (length (Component.joints c2)) 1) as [H2|H2];
      [|done].
    injection H as <- <-.
    destruct (Component.joints c2) as [|j1 [|? ?]]; try done. by exists j1.
Qed.
End Connect.

(** ** The constructors *)

Section Constructors.
Implicit Types (h : heap) (j : jref) (c : Component.t).

Lemma Joint_run x y z r g h :
  Joint [x; y; z] r g h
  = (Ok (length h), h ++ [Joint.mk (x, y, z) (r mod 8) g]).
Proof. reflexivity. Qed.

(** Only a position of three coordinates passes the assertion. *)
Lemma Joint_inv pos r g h res h' :
  Joint pos r g h = (res, h') ->
  (res = Raise AssertionError /\ h' = h)
  \/ (exists x y z, pos = [x; y; z] /\ res = Ok (length h) /\
        h' = h ++ [Joint.mk (x, y, z) (r mod 8) g]).
Proof.
  destruct pos as [|x [|y [|z [|? ?]]]]; simpl; unfold raise;
    intros [= <- <-]; try (by left).
  right. by exists x, y, z.
Qed.

Lemma lookup_fresh h (l : list Joint.t) (k : nat) :
  (h ++ l) !! (length h + k)%nat = l !! k.
Proof.
  rewrite lookup_app_r by apply Nat.le_add_r. f_equal.
  by rewrite Nat.add_comm, Nat.add_sub.
Qed.

Lemma EndPoint_run x y z r g h :
  EndPoint [x; y; z] r g h
  = (Ok (Component.mk EndPoint_cls (Some (PosTuple [x; y; z])) (Some r)
           None [length h]),
     h ++ [Joint.mk (x, y, z) (r mod 8) g]).
Proof. reflexivity. Qed.

Lemma Straight_run h :
  Straight h
  = (Ok (Component.mk Straight_cls None None None
           [length h; S (length h)]),
     h ++ [Joint.mk (0, 0, 0)%float 4 false;
           Joint.mk (1, 0, 0)%float 0 true]).
Proof.
  unfold Straight, bind. rewrite !Joint_run. unfold ret.
  rewrite length_app, <- app_assoc. simpl.
  by rewrite Nat.add_1_r.
Qed.

(** [SelectedJoint] reads the store and never writes it. *)
Lemma SelectedJoint_run c i j J h :
  py_index (Component.joints c) i = Some j -> h !! j = Some J ->
  SelectedJoint c i h
  = (Ok (Component.mk SelectedJoint_cls (Some (PosArray j)) (Some 0)
           (Some [c]) [j]), h).
Proof.
  intros Hi HJ. unfold SelectedJoint, bind, getitem. rewrite Hi.
  unfold ret at 1, read. by rewrite HJ.
Qed.

Lemma SelectedJoint_inv c i h res h' :
  SelectedJoint c i h = (res, h') ->
  h' = h /\
  match res with
  | Ok s =>
      exists j, py_index (Component.joints c) i = Some j /\
        allocated h j /\
        s = Component.mk SelectedJoint_cls (Some (PosArray j)) (Some 0)
              (Some [c]) [j]
  | Raise e =>
      (e = IndexError /\ py_index (Component.joints c) i = None)
      \/ (e = DanglingReference /\
            exists j, py_index (Component.joints c) i = Some j /\
              h !! j = None)
  end.
Proof.
  unfold SelectedJoint, bind, getitem.
  destruct (py_index (Component.joints c) i) as [j|] eqn:Hi.
  - unfold ret at 1, read. destruct (h !! j) as [J|] eqn:HJ.
    + unfold ret. intros [= <- <-]. split; [done|].
      exists j. split_and!; [done| |done]. by exists J.
    + intros [= <- <-]. split; [done|]. right. split; [done|].
      by exists j.
  - unfold raise. intros [= <- <-]. split; [done|]. by left.
Qed.

Lemma py_index_ge {A} (xs : list A) (i : Z) :
  Z.of_nat (length xs) <= i -> py_index xs i = None.
Proof.
  intros Hi. unfold py_index.
  destruct (Z.leb_spec 0 i); [|lia].
  apply lookup_ge_None. lia.
Qed.

Lemma py_index_nonneg {A} (xs : list A) (i : Z) :
  0 <= i -> py_index xs i = xs !! Z.to_nat i.
Proof. intros Hi. unfold py_index. by destruct (Z.leb_spec 0 i); [|lia]. Qed.

Lemma py_index_neg {A} (xs : list A) (i : Z) :
  - Z.of_nat (length xs) <= i < 0 ->
  py_index xs i = xs !! Z.to_nat (Z.of_nat (length xs) + i).
Proof.
  intros Hi. unfold py_index.
  destruct (Z.leb_spec 0 i); [lia|].
  by destruct (Z.leb_spec (- Z.of_nat (length xs)) i); [|lia].
Qed.

End Constructors.

(** ** Keeping a property of the store *)

Section Preservation.
Context (P : heap -> Prop).

Lemma preserves_ret {A} (a : A) : preserves P (ret a).
Proof. intros h r h' HP [= <- <-]. done. Qed.

Lemma preserves_bind {A B} (m : M A) (k : A -> M B) :
  preserves P m -> (forall a, preserves P (k a)) -> preserves P (bind m k).
Proof.
  intros Hm Hk h r h' HP. unfold bind.
  destruct (m h) as [[a|e] h1] eqn:Hrun.
  - apply (Hk a). by eapply Hm.
  - intros [= <- <-]. by eapply Hm.
Qed.
End Preservation.

(** ** What [connect] does to the store *)

Section Frame.
Implicit Types (h : heap) (j : jref) (c : Component.t).

(** [_connect] allocates nothing and rewrites positions only. *)
Lemma _connect_same_tags h (c1 c2 : Component.t) r h' :
  _connect c1 c2 h = (r, h') -> same_tags h h'.
Proof.
  intros Hrun.
  destruct (_connect_inv _ _ _ _ _ Hrun)
    as [(e & _ & -> & _)|(j1 & J1 & j2 & J2 & Hm & Hsum)].
  - apply same_tags_refl.
  - rewrite (_connect_matched _ _ _ _ _ _ _ Hm Hsum) in Hrun.
    injection Hrun as _ <-. apply translate_all_same_tags.
Qed.

Lemma connect_same_tags h (a b : Component.t) r h' :
  connect a b h = (r, h') -> same_tags h h'.
Proof.
  rewrite connect_anchor_target.
  destruct (anchor_target a b) as [[anchor target]|].
  - apply _connect_same_tags.
  - intros [= <- <-]. apply same_tags_refl.
Qed.

Lemma Joint_normalised pos r g : preserves normalised (Joint pos r g).
Proof.
  intros h res h' Hn Hrun.
  destruct (Joint_inv _ _ _ _ _ _ Hrun)
    as [[_ ->]|(x & y & z & _ & _ & ->)]; [done|].
  apply Forall_app. split; [done|].
  apply Forall_cons. split; [|apply Forall_nil_2].
  simpl. apply Z.mod_pos_bound. lia.
Qed.
End Frame.

(** ** Orientation is normalised *)

(** C7.  [Joint.__init__] stores [rotation % 8]: whatever integer is
    passed, negative or 8 and above, the new joint's orientation is the
    input modulo 8 and lies in [0, 8).  No operation of the module
    breaks this: each constructor and both [_connect] and [connect] turn
    a store whose joints all have their orientation in [0, 8) into
    another such store, however they end. *)
Theorem Joint_rotation_in_range :
  (forall x y z r g h,
     exists j J h',
       Joint [x; y; z] r g h = (Ok j, h') /\
       h' !! j = Some J /\
       Joint.rotation J = r mod 8 /\
       0 <= Joint.rotation J < 8)
  /\ normalised []
  /\ (forall pos r g, preserves normalised (Joint pos r g))
  /\ (forall pos r g, preserves normalised (EndPoint pos r g))
  /\ preserves normalised Straight
  /\ (forall c i, preserves normalised (SelectedJoint c i))
  /\ (forall c1 c2, preserves normalised (_connect c1 c2))
  /\ (forall c1 c2, preserves normalised (connect c1 c2)).
Proof.
  split_and!.
  - intros x y z r g h.
    exists (length h), (Joint.mk (x, y, z) (r mod 8) g),
      (h ++ [Joint.mk (x, y, z) (r mod 8) g]).
    split_and!; [done| |done|apply Z.mod_pos_bound; lia|
                 apply Z.mod_pos_bound; lia].
    rewrite <- (Nat.add_0_r (length h)). apply lookup_fresh.
  - apply Forall_nil_2.
  - apply Joint_normalised.
  - intros pos r g. apply preserves_bind; [apply Joint_normalised|].
    intros j. apply preserves_ret.
  - apply preserves_bind; [apply Joint_normalised|].
    intros j0. apply preserves_bind; [apply Joint_normalised|].
    intros j1. apply preserves_ret.
  - intros c i h res h' Hn Hrun.
    by destruct (SelectedJoint_inv _ _ _ _ _ Hrun) as [-> _].
  - intros c1 c2 h res h' Hn Hrun.
    eapply same_tags_normalised; [by eapply _connect_same_tags|done].
  - intros c1 c2 h res h' Hn Hrun.
    eapply same_tags_normalised; [by eapply connect_same_tags|done].
Qed.

(** ** Selecting a joint *)

(** C9.  [SelectedJoint(part, i)] raises [IndexError] (the
    specification's InvalidJointIndex) for every [i] at or beyond the
    number of joints of [part], and the store is untouched.  When it
    succeeds, the new component exposes exactly the joint [part.joints[i]]
    and has [part] as its only child, and again the store is untouched.
    It does succeed for every index from 0 up to the number of joints. *)
Theorem SelectedJoint_index (part : Component.t) (i : Z) (h : heap) :
  (Z.of_nat (length (Component.joints part)) <= i ->
   SelectedJoint part i h = (Raise InvalidJointIndex, h))
  /\ (forall s h',
        SelectedJoint part i h = (Ok s, h') ->
        exists j,
          py_index (Component.joints part) i = Some j /\
          Component.joints s = [j] /\
          Component.children s = Some [part] /\
          h' = h)
  /\ (Forall (allocated h) (Component.joints part) ->
      0 <= i < Z.of_nat (length (Component.joints part)) ->
      exists j s,
        Component.joints part !! Z.to_nat i = Some j /\
        SelectedJoint part i h = (Ok s, h) /\
        Component.joints s = [j] /\
        Component.children s = Some [part]).
Proof.
  split_and!.
  - intros Hi. unfold SelectedJoint, bind, getitem.
    by rewrite py_index_ge.
  - intros s h' Hrun.
    destruct (SelectedJoint_inv _ _ _ _ _ Hrun) as [-> (j & Hj & _ & ->)].
    by exists j.
  - intros Hall Hi.
    destruct (lookup_lt_is_Some_2 (Component.joints part) (Z.to_nat i))
      as [j Hj]; [lia|].
    assert (allocated h j) as [J HJ].
    { rewrite Forall_lookup in Hall. by eapply Hall. }
    eexists j, _. split; [done|].
    rewrite (SelectedJoint_run part i j J) by (by rewrite ?py_index_nonneg by lia).
    done.
Qed.

(** C10.  A negative index counts from the end, as Python's list
    indexing does: for a part with [n] joints and [-n <= i < 0],
    [SelectedJoint(part, i)] does not raise; it selects the joint at
    position [n + i] and leaves the store untouched. *)
Theorem SelectedJoint_negative_index (part : Component.t) (i : Z) (h : heap) :
  Forall (allocated h) (Component.joints part) ->
  - Z.of_nat (length (Component.joints part)) <= i < 0 ->
  exists j s,
    Component.joints part
      !! Z.to_nat (Z.of_nat (length (Component.joints part)) + i) = Some j /\
    SelectedJoint part i h = (Ok s, h) /\
    Component.joints s = [j] /\
    Component.children s = Some [part].
Proof.
  intros Hall Hi.
  destruct (lookup_lt_is_Some_2 (Component.joints part)
              (Z.to_nat (Z.of_nat (length (Component.joints part)) + i)))
    as [j Hj]; [lia|].
  assert (allocated h j) as [J HJ].
  { rewrite Forall_lookup in Hall. by eapply Hall. }
  eexists j, _. split; [done|].
  rewrite (SelectedJoint_run part i j J) by (by rewrite ?py_index_neg by lia).
  done.
Qed.

(** ** The doctest: an end point and a straight rail *)

Section EndToEnd.
Context (h : heap) (e s : Component.t) (j1 jf jm : jref).
Context (p : posval) (r : Z).
Hypothesis e_joints : Component.joints e = [j1].
Hypothesis e_position : Component.position e = Some p.
Hypothesis e_rotation : Component.rotation e = Some r.
Hypothesis s_joints : Component.joints s = [jf; jm].
Hypothesis s_distinct : jf ≠ jm.
Hypothesis at_j1 : h !! j1 = Some (Joint.mk (10, 0, 0)%float 0 true).
Hypothesis at_jf : h !! jf = Some (Joint.mk (0, 0, 0)%float 4 false).
Hypothesis at_jm : h !! jm = Some (Joint.mk (1, 0, 0)%float 0 true).

Lemma end_to_end_matched :
  matched h e s j1 (Joint.mk (10, 0, 0)%float 0 true)
    jf (Joint.mk (0, 0, 0)%float 4 false).
Proof.
  unfold matched. rewrite e_joints, s_joints. split_and!; try done.
  - repeat apply Forall_cons_2; [by eexists..|apply Forall_nil_2].
  - unfold candidates. simpl. unfold differs. by rewrite at_jf, at_jm.
Qed.

(** The male end point at x = 10 takes the female end of the rail, and
    the rail's male end is left over at x = 11. *)
Lemma end_to_end_connect :
  exists h',
    connect e s h = (Ok (ConnectedComponent p r [e; s] [jm]), h') /\
    h' !! jm = Some (Joint.mk (11, 0, 0)%float 0 true).
Proof.
  exists (translate_all
            (offset (Joint.mk (10, 0, 0)%float 0 true)
               (Joint.mk (0, 0, 0)%float 4 false)) [jf; jm] h).
  split.
  - rewrite connect_anchor_target. unfold anchor_target.
    rewrite e_joints. simpl.
    rewrite (_connect_matched _ _ _ _ _ _ _ end_to_end_matched) by done.
    rewrite e_position, e_rotation, s_joints. unfold leftover. simpl.
    rewrite Nat.eqb_refl. simpl.
    destruct (Nat.eqb_spec jm jf) as [Heq|_]; [by destruct s_distinct|].
    done.
  - rewrite translate_all_in.
    + by rewrite at_jm.
    + apply NoDup_cons. split; [by rewrite list_elem_of_singleton|].
      apply NoDup_singleton.
    + apply elem_of_cons. right. apply list_elem_of_singleton. done.
Qed.
End EndToEnd.

(** C8.  In any store, [connect(EndPoint((10, 0, 0), 0, True),
    Straight())] succeeds, and the component it returns exposes exactly
    one joint, whose position is (11, 0, 0), orientation 0 and gender
    male. *)
Theorem connect_EndPoint_Straight (h : heap) :
  exists e s c h1 h2 h',
    EndPoint [10; 0; 0]%float 0 true h = (Ok e, h1) /\
    Straight h1 = (Ok s, h2) /\
    connect e s h2 = (Ok c, h') /\
    exposed h' c = [Some (Joint.mk (11, 0, 0)%float 0 true)].
Proof.
  set (h1 := h ++ [Joint.mk (10, 0, 0)%float (0 mod 8) true]).
  destruct (end_to_end_connect
              (h1 ++ [Joint.mk (0, 0, 0)%float 4 false;
                      Joint.mk (1, 0, 0)%float 0 true])
              (Component.mk EndPoint_cls (Some (PosTuple [10; 0; 0]%float))
                 (Some 0) None [length h])
              (Component.mk Straight_cls None None None
                 [length h1; S (length h1)])
              (length h) (length h1) (S (length h1))
              (PosTuple [10; 0; 0]%float) 0)
    as (h' & Hrun & Hjm); try done.
  - rewrite lookup_app_l by (unfold h1; rewrite length_app; simpl; lia).
    by apply list_lookup_middle.
  - by apply list_lookup_middle.
  - rewrite <- Nat.add_1_r. by rewrite lookup_fresh.
  - eexists _, _, _, _, _, h'.
    split; [apply EndPoint_run|]. split; [apply Straight_run|].
    split; [exact Hrun|]. unfold exposed. simpl. by rewrite Hjm.
Qed.

(** ** Choosing the anchor *)

Lemma build_sample_run x y z r g :
  build_sample [x; y; z] r g []
  = (Ok (sample_endpoint [x; y; z] r, sample_straight),
     sample_store (x, y, z) r g).
Proof. reflexivity. Qed.

(** C2.  [connect(a, b)] takes [a] as the anchor and [b] as the target
    when [a] has exactly one joint; otherwise it takes [b] as the anchor
    and [a] as the target when [b] has exactly one joint; otherwise it
    raises [RuntimeError("Ambiguous Connection")] and leaves the store
    as it was.  Two fresh straight rails have two joints each, so
    connecting them raises that error, in any store. *)
Theorem connect_anchor_selection :
  (forall a b : Component.t,
     length (Component.joints a) = 1%nat -> connect a b = _connect a b)
  /\ (forall a b : Component.t,
        length (Component.joints a) ≠ 1%nat ->
        length (Component.joints b) = 1%nat ->
        connect a b = _connect b a)
  /\ (forall (a b : Component.t) (h : heap),
        length (Component.joints a) ≠ 1%nat ->
        length (Component.joints b) ≠ 1%nat ->
        connect a b h = (Raise AmbiguousConnection, h))
  /\ (forall h : heap,
        exists a b h',
          build_two_straights h = (Ok (a, b), h') /\
          connect a b h' = (Raise AmbiguousConnection, h')).
Proof.
  split_and!.
  - intros a b Ha. unfold connect.
    by destruct (Nat.eqb_spec (length (Component.joints a)) 1).
  - intros a b Ha Hb. unfold connect.
    destruct (Nat.eqb_spec (length (Component.joints a)) 1); [done|].
    by destruct (Nat.eqb_spec (length (Component.joints b)) 1).
  - intros a b h Ha Hb. unfold connect.
    destruct (Nat.eqb_spec (length (Component.joints a)) 1); [done|].
    by destruct (Nat.eqb_spec (length (Component.joints b)) 1).
  - intros h. eexists _, _, _. split.
    + unfold build_two_straights, bind. rewrite !Straight_run. done.
    + done.
Qed.

(** ** Matching genders and orientations *)

Section Matching.
Context (h : heap) (a b anchor target : Component.t).
Context (j1 : jref) (J1 : Joint.t).
Hypothesis selected : anchor_target a b = Some (anchor, target).
Hypothesis anchor_joint : Component.joints anchor !! 0%nat = Some j1.
Hypothesis anchor_stored : h !! j1 = Some J1.
Hypothesis target_allocated : Forall (allocated h) (Component.joints target).

Lemma connect_selected : connect a b h = _connect anchor target h.
Proof. by rewrite connect_anchor_target, selected. Qed.

Lemma connect_not_one :
  length (candidates h (Joint.is_male J1) (Component.joints target)) ≠ 1%nat ->
  connect a b h = (Raise AmbiguousConnection, h).
Proof.
  intros Hlen. rewrite connect_selected. by eapply _connect_ambiguous.
Qed.

Lemma connect_one h' :
  connect a b h = (Raise AmbiguousConnection, h') ->
  length (candidates h (Joint.is_male J1) (Component.joints target)) ≠ 1%nat.
Proof.
  rewrite connect_selected, (_connect_run h anchor target j1 J1) by done.
  destruct (candidates h (Joint.is_male J1) (Component.joints target))
    as [|j2 [|? ?]] eqn:Hc; [done| |done].
  assert (allocated h j2) as [J2 HJ2].
  { rewrite Forall_forall in target_allocated. apply target_allocated.
    eapply (candidates_elem h (Joint.is_male J1)).
    rewrite Hc. apply list_elem_of_singleton. done. }
  rewrite HJ2.
  destruct (Joint.rotation J1 + Joint.rotation J2 =? 4); [|done].
  simpl.
  by destruct (Component.position anchor), (Component.rotation anchor).
Qed.
End Matching.

(** C3.  Once the anchor is chosen, [connect] collects the target's
    joints whose gender differs from the gender of the anchor's joint.
    It raises [RuntimeError("Ambiguous Connection")] exactly when their
    number is not 1, be it none or several, and then the store is as it
    was. *)
Theorem connect_gender_matching (h : heap) (a b anchor target : Component.t)
    (j1 : jref) (J1 : Joint.t) :
  anchor_target a b = Some (anchor, target) ->
  Component.joints anchor !! 0%nat = Some j1 ->
  h !! j1 = Some J1 ->
  Forall (allocated h) (Component.joints target) ->
  ((exists h', connect a b h = (Raise AmbiguousConnection, h'))
   <-> length (candidates h (Joint.is_male J1) (Component.joints target))
       ≠ 1%nat)
  /\ (forall h', connect a b h = (Raise AmbiguousConnection, h') -> h' = h).
Proof.
  intros Hsel Hj1 HJ1 Hall. split; [split|].
  - intros [h' Hrun]. by eapply connect_one.
  - intros Hlen. exists h. by eapply connect_not_one.
  - intros h' Hrun.
    assert (connect a b h = (Raise AmbiguousConnection, h)) as Hrun'.
    { eapply connect_not_one; [done..|]. by eapply connect_one. }
    congruence.
Qed.

(** C4.  When the matched pair is not a half-turn apart, that is, when
    the orientations of the anchor's joint and of the matched joint do
    not add up to 4, [connect] raises [NotImplementedError] (the
    specification's UnsupportedOrientation) before it moves anything:
    the store, and so the joints both arguments expose, are as they
    were. *)
Theorem connect_unsupported_orientation (h : heap)
    (a b anchor target : Component.t) (j1 j2 : jref) (J1 J2 : Joint.t) :
  anchor_target a b = Some (anchor, target) ->
  matched h anchor target j1 J1 j2 J2 ->
  Joint.rotation J1 + Joint.rotation J2 ≠ 4 ->
  connect a b h = (Raise UnsupportedOrientation, h)
  /\ (forall r h', connect a b h = (r, h') ->
        exposed h' a = exposed h a /\ exposed h' b = exposed h b).
Proof.
  intros Hsel Hm Hsum.
  assert (connect a b h = (Raise UnsupportedOrientation, h)) as Hrun.
  { rewrite connect_anchor_target, Hsel. by eapply _connect_unsupported. }
  split; [done|]. intros r h' Hrun'. rewrite Hrun in Hrun'.
  by injection Hrun' as _ <-.
Qed.

(** ** A successful connection *)

Section Success.
Context (h : heap) (a b anchor target : Component.t).
Hypothesis selected : anchor_target a b = Some (anchor, target).

(** What is known once [connect] has returned a component *)
Lemma connect_Ok_inv c h' :
  connect a b h = (Ok c, h') ->
  exists j1 J1 j2 J2 p r,
    matched h anchor target j1 J1 j2 J2 /\
    Joint.rotation J1 + Joint.rotation J2 = 4 /\
    Component.position anchor = Some p /\
    Component.rotation anchor = Some r /\
    c = ConnectedComponent p r [anchor; target]
          (leftover j2 (Component.joints target)) /\
    h' = translate_all (offset J1 J2) (Component.joints target) h.
Proof.
  rewrite connect_anchor_target, selected. intros Hrun.
  destruct (_connect_inv _ _ _ _ _ Hrun)
    as [(e & [=] & _)|(j1 & J1 & j2 & J2 & Hm & Hsum)].
  rewrite (_connect_matched _ _ _ _ _ _ _ Hm Hsum) in Hrun.
  exists j1, J1, j2, J2.
  destruct (Component.position anchor) as [p|]; [|done].
  destruct (Component.rotation anchor) as [r|]; [|done].
  exists p, r. by simplify_eq.
Qed.

(** [connect] does return a component in that situation. *)
Lemma connect_succeeds j1 J1 j2 J2 p r :
  matched h anchor target j1 J1 j2 J2 ->
  Joint.rotation J1 + Joint.rotation J2 = 4 ->
  Component.position anchor = Some p ->
  Component.rotation anchor = Some r ->
  connect a b h
  = (Ok (ConnectedComponent p r [anchor; target]
           (leftover j2 (Component.joints target))),
     translate_all (offset J1 J2) (Component.joints target) h).
Proof.
  intros Hm Hsum Hp Hr. rewrite connect_anchor_target, selected.
  rewrite (_connect_matched _ _ _ _ _ _ _ Hm Hsum). by rewrite Hp, Hr.
Qed.
End Success.

(** C6, as the code has it.  A successful [connect] returns a component
    whose children are the anchor and the target, anchor first.  This
    is the order of the arguments of [connect] when the first argument
    has exactly one joint; otherwise the second argument is the anchor
    and the children are the arguments in reverse.  The joints of the
    result are the target's joints without the matched joint, in the
    target's order; the matched joint occurs once in the target and not
    at all in the result.  Every joint of the result is taken from the
    target; the anchor's own joint is among them exactly when the target
    lists that same object too.  Read in the store after the call, with
    a target that lists each joint once, the joints of the result are
    the target's joints at their positions plus the offset. *)
Theorem connect_assembly (h : heap) (a b anchor target c : Component.t)
    (h' : heap) :
  anchor_target a b = Some (anchor, target) ->
  connect a b h = (Ok c, h') ->
  exists j1 J1 j2 J2 pre post,
    matched h anchor target j1 J1 j2 J2 /\
    Component.joints anchor = [j1] /\
    Component.children c = Some [anchor; target] /\
    (length (Component.joints a) = 1%nat ->
     Component.children c = Some [a; b]) /\
    (length (Component.joints a) ≠ 1%nat ->
     Component.children c = Some [b; a]) /\
    Component.joints target = pre ++ j2 :: post /\
    Component.joints c = pre ++ post /\
    (j2 ∉ Component.joints c) /\
    (forall j, j ∈ Component.joints c -> j ∈ Component.joints target) /\
    (j1 ∈ Component.joints c <-> j1 ∈ Component.joints target) /\
    (NoDup (Component.joints target) ->
     exposed h' c
     = map (fun j =>
              (fun J =>
                 Joint.mk
                   (vadd (Joint.position J)
                      (vsub (Joint.position J1) (Joint.position J2)))
                   (Joint.rotation J) (Joint.is_male J)) <$> h !! j)
         (pre ++ post)).
Proof.
  intros Hsel Hrun.
  destruct (connect_Ok_inv h a b anchor target Hsel c h' Hrun)
    as (j1 & J1 & j2 & J2 & p & r & Hm & Hsum & Hp & Hr & -> & ->).
  pose proof Hm as (Hj1 & HJ1 & Hall & Hc & HJ2).
  destruct (candidates_singleton _ _ _ _ Hc)
    as (pre & post & Hsplit & Hpre & Hpost & Hd).
  exists j1, J1, j2, J2, pre, post.
  assert (leftover j2 (Component.joints target) = pre ++ post) as Hleft.
  { rewrite Hsplit. by apply leftover_split. }
  assert (j1 ≠ j2) as Hne.
  { intros ->. unfold differs in Hd. rewrite HJ1 in Hd.
    by destruct (Joint.is_male J1). }
  split_and!; simpl; try done.
  - destruct (anchor_target_one _ _ _ _ Hsel) as [j Hj].
    rewrite Hj in Hj1 |- *. by injection Hj1 as ->.
  - intros Ha. unfold anchor_target in Hsel. rewrite Ha in Hsel.
    simpl in Hsel. by simplify_eq.
  - intros Ha. unfold anchor_target in Hsel.
    destruct (Nat.eqb_spec (length (Component.joints a)) 1); [done|].
    destruct (length (Component.joints b) =? 1)%nat; by simplify_eq.
  - rewrite Hleft. rewrite elem_of_app. by intros [?|?].
  - intros j. rewrite leftover_elem. by intros [? _].
  - rewrite leftover_elem. split; [by intros [? _]|done].
  - intros Hnd. unfold exposed. simpl. rewrite Hleft.
    apply map_ext_in. intros j Hj. rewrite translate_all_in; [done|done|].
    apply list_elem_of_In in Hj. rewrite Hsplit.
    apply elem_of_app in Hj as [Hj|Hj]; apply elem_of_app;
      [by left|right; by apply elem_of_cons; right].
Qed.

(** C5, as the code has it.  A successful [connect] whose target lists
    each joint once adds the one offset [j1.position - j2.position],
    computed in float64 before the loop, to the position of every joint
    of the target, in place; orientations and genders stay, and no other
    joint moves.  The matched joint ends at
    [j2.position + (j1.position - j2.position)] in float64 arithmetic.
    This is the anchor joint's position whenever that sum is exact and
    the anchor's joint is not also a joint of the target. *)
Theorem connect_rigid_translation (h : heap)
    (a b anchor target c : Component.t) (h' : heap) :
  anchor_target a b = Some (anchor, target) ->
  connect a b h = (Ok c, h') ->
  NoDup (Component.joints target) ->
  exists j1 J1 j2 J2,
    matched h anchor target j1 J1 j2 J2 /\
    (forall j, j ∈ Component.joints target ->
       h' !! j = translate (offset J1 J2) <$> h !! j) /\
    (forall j, j ∉ Component.joints target -> h' !! j = h !! j) /\
    h' !! j2
    = Some (Joint.mk
              (vadd (Joint.position J2)
                 (vsub (Joint.position J1) (Joint.position J2)))
              (Joint.rotation J2) (Joint.is_male J2)) /\
    (j1 ∉ Component.joints target ->
     vadd (Joint.position J2) (vsub (Joint.position J1) (Joint.position J2))
     = Joint.position J1 ->
     Joint.position <$> h' !! j2 = Joint.position <$> h' !! j1).
Proof.
  intros Hsel Hrun Hnd.
  destruct (connect_Ok_inv h a b anchor target Hsel c h' Hrun)
    as (j1 & J1 & j2 & J2 & p & r & Hm & Hsum & Hp & Hr & -> & ->).
  pose proof Hm as (Hj1 & HJ1 & Hall & Hc & HJ2).
  exists j1, J1, j2, J2.
  assert (j2 ∈ Component.joints target) as Hj2.
  { eapply (candidates_elem h (Joint.is_male J1)).
    rewrite Hc. by apply list_elem_of_singleton. }
  assert (translate_all (offset J1 J2) (Component.joints target) h !! j2
          = Some (translate (offset J1 J2) J2)) as Hnew.
  { rewrite translate_all_in by done. by rewrite HJ2. }
  split_and!; try done.
  - intros j Hj. by apply translate_all_in.
  - intros j Hj. by apply translate_all_notin.
  - intros Hn Hexact. rewrite Hnew, translate_all_notin, HJ1 by done.
    simpl. by f_equal.
Qed.

(** C1, as the code has it.  [connect] creates no joint and never
    changes the orientation or the gender of one.  When it raises,
    except for the [AttributeError] of an anchor that lacks [position]
    or [rotation], the store is as it was.  A joint that is not one of
    the target's joints keeps its cell, position included.  When it
    returns a component, the joints of that component are joints of the
    target, the same objects and no copies, and the target has been
    edited in place: if it lists each joint once, every joint of the
    target is in the store with its position plus the offset
    [j1.position - j2.position], in float64, and with its orientation
    and gender. *)
Theorem connect_frame (h : heap) (a b : Component.t)
    (res : outcome Component.t) (h' : heap) :
  connect a b h = (res, h') ->
  same_tags h h'
  /\ (forall e, res = Raise e -> (forall name, e ≠ AttributeError name) ->
        h' = h)
  /\ (anchor_target a b = None -> h' = h)
  /\ (forall anchor target,
        anchor_target a b = Some (anchor, target) ->
        (forall j, j ∉ Component.joints target -> h' !! j = h !! j)
        /\ (forall c, res = Ok c ->
              (forall j, j ∈ Component.joints c ->
                 j ∈ Component.joints target)
              /\ exists j1 J1 j2 J2,
                   matched h anchor target j1 J1 j2 J2 /\
                   (NoDup (Component.joints target) ->
                    forall j J,
                      j ∈ Component.joints target -> h !! j = Some J ->
                      h' !! j
                      = Some (Joint.mk
                                (vadd (Joint.position J)
                                   (vsub (Joint.position J1)
                                      (Joint.position J2)))
                                (Joint.rotation J) (Joint.is_male J))))).
Proof.
  intros Hrun. split_and!.
  - by eapply connect_same_tags.
  - intros e -> Hne. rewrite connect_anchor_target in Hrun.
    destruct (anchor_target a b) as [[anchor target]|];
      [|by injection Hrun as _ <-].
    destruct (_connect_inv _ _ _ _ _ Hrun)
      as [(e' & _ & -> & _)|(j1 & J1 & j2 & J2 & Hm & Hsum)]; [done|].
    rewrite (_connect_matched _ _ _ _ _ _ _ Hm Hsum) in Hrun.
    destruct (Component.position anchor);
      [destruct (Component.rotation anchor)|]; simplify_eq.
    + by destruct (Hne "rotation"%string).
    + by destruct (Hne "position"%string).
  - intros Hnone. rewrite connect_anchor_target, Hnone in Hrun.
    by injection Hrun as _ <-.
  - intros anchor target Hsel. split.
    + intros j Hj. rewrite connect_anchor_target, Hsel in Hrun.
      destruct (_connect_inv _ _ _ _ _ Hrun)
        as [(e' & _ & -> & _)|(j1 & J1 & j2 & J2 & Hm & Hsum)]; [done|].
      rewrite (_connect_matched _ _ _ _ _ _ _ Hm Hsum) in Hrun.
      injection Hrun as _ <-. by apply translate_all_notin.
    + intros c ->.
      destruct (connect_Ok_inv h a b anchor target Hsel c h' Hrun)
        as (j1 & J1 & j2 & J2 & p & r & Hm & _ & _ & _ & -> & ->).
      split.
      * intros j Hj. simpl in Hj. by apply leftover_elem in Hj as [? _].
      * exists j1, J1, j2, J2. split; [done|].
        intros Hnd j J Hj HJ. by rewrite translate_all_in, HJ.
Qed.

(** ** Components built by the module *)

Section WellBuilt.
Implicit Types (h : heap) (c : Component.t).

Lemma well_built_same_tags h h' c :
  same_tags h h' -> well_built h c -> well_built h' c.
Proof.
  intros Htags (Hnd & Hall & Hattr). split_and!; [done| |done].
  eapply Forall_impl; [exact Hall|]. intros j. by apply same_tags_allocated.
Qed.

Lemma allocated_fresh h (l : list Joint.t) (k : nat) :
  (k < length l)%nat -> allocated (h ++ l) (length h + k)%nat.
Proof.
  intros Hk. unfold allocated. rewrite lookup_fresh.
  by apply lookup_lt_is_Some_2.
Qed.

Lemma EndPoint_well_built pos r g h c h' :
  EndPoint pos r g h = (Ok c, h') -> well_built h' c.
Proof.
  unfold EndPoint, bind. intros Hrun.
  destruct (Joint pos r g h) as [[j|e] h1] eqn:HJ; [|done].
  destruct (Joint_inv _ _ _ _ _ _ HJ)
    as [[[=] _]|(x & y & z & _ & [= ->] & ->)].
  injection Hrun as <- <-. split_and!; simpl.
  - apply NoDup_singleton.
  - apply Forall_cons. split; [|apply Forall_nil_2].
    rewrite <- (Nat.add_0_r (length h)). apply allocated_fresh. simpl. lia.
  - intros _. split; by eexists.
Qed.

Lemma Straight_well_built h c h' :
  Straight h = (Ok c, h') -> well_built h' c.
Proof.
  rewrite Straight_run. intros [= <- <-]. split_and!; simpl.
  - apply NoDup_cons. split; [|apply NoDup_singleton].
    rewrite list_elem_of_singleton. lia.
  - repeat apply Forall_cons_2; [| |apply Forall_nil_2].
    + rewrite <- (Nat.add_0_r (length h)). apply allocated_fresh. simpl. lia.
    + rewrite <- Nat.add_1_r. apply allocated_fresh. simpl. lia.
  - done.
Qed.

Lemma SelectedJoint_well_built c i h s h' :
  SelectedJoint c i h = (Ok s, h') -> well_built h' s.
Proof.
  intros Hrun.
  destruct (SelectedJoint_inv _ _ _ _ _ Hrun) as [-> (j & _ & Hj & ->)].
  split_and!; simpl.
  - apply NoDup_singleton.
  - apply Forall_cons. split; [done|apply Forall_nil_2].
  - intros _. split; by eexists.
Qed.

Lemma leftover_NoDup j2 (js : list jref) : NoDup js -> NoDup (leftover j2 js).
Proof.
  induction 1 as [|j js Hj Hnd IH]; unfold leftover in *; simpl.
  - apply NoDup_nil_2.
  - destruct (negb (j =? j2)%nat); [|done].
    apply NoDup_cons. split; [|done].
    intros Hin. apply Hj. by apply leftover_elem in Hin as [? _].
Qed.

Lemma connect_well_built h (a b : Component.t) c h' :
  well_built h a -> well_built h b ->
  connect a b h = (Ok c, h') -> well_built h' c.
Proof.
  intros Ha Hb Hrun.
  pose proof (connect_same_tags _ _ _ _ _ Hrun) as Htags.
  destruct (anchor_target a b) as [[anchor target]|] eqn:Hsel.
  - destruct (connect_Ok_inv h a b anchor target Hsel c h' Hrun)
      as (j1 & J1 & j2 & J2 & p & r & Hm & _ & _ & _ & -> & _).
    assert (well_built h target) as (Hnd & Hall & _).
    { unfold anchor_target in Hsel.
      destruct (length (Component.joints a) =? 1)%nat; [by simplify_eq|].
      destruct (length (Component.joints b) =? 1)%nat; by simplify_eq. }
    split_and!; simpl.
    + by apply leftover_NoDup.
    + apply Forall_forall. intros j Hj. apply leftover_elem in Hj as [Hj _].
      eapply same_tags_allocated; [done|].
      rewrite Forall_forall in Hall. by apply Hall.
    + intros _. split; by eexists.
  - rewrite connect_anchor_target, Hsel in Hrun. done.
Qed.

(** Between components built by the module, a [connect] that raises
    has not touched the store. *)
Lemma connect_failure_store h (a b : Component.t) e h' :
  well_built h a -> well_built h b ->
  connect a b h = (Raise e, h') -> h' = h.
Proof.
  intros Ha Hb. rewrite connect_anchor_target.
  destruct (anchor_target a b) as [[anchor target]|] eqn:Hsel;
    [|by intros [= _ <-]].
  intros Hrun.
  destruct (_connect_inv _ _ _ _ _ Hrun)
    as [(e' & _ & -> & _)|(j1 & J1 & j2 & J2 & Hm & Hsum)]; [done|].
  rewrite (_connect_matched _ _ _ _ _ _ _ Hm Hsum) in Hrun.
  destruct (anchor_target_one _ _ _ _ Hsel) as [j Hj].
  assert (is_Some (Component.position anchor)
          /\ is_Some (Component.rotation anchor)) as [[p Hp] [r Hr]].
  { assert (well_built h anchor) as (_ & _ & Hattr).
    { unfold anchor_target in Hsel.
      destruct (length (Component.joints a) =? 1)%nat; [by simplify_eq|].
      destruct (length (Component.joints b) =? 1)%nat; by simplify_eq. }
    apply Hattr. by rewrite Hj. }
  rewrite Hp, Hr in Hrun. done.
Qed.
End WellBuilt.

(** ** The claims on the sample layout *)

Lemma sample_straight_NoDup : NoDup (Component.joints sample_straight).
Proof.
  apply NoDup_cons. split; [|apply NoDup_singleton].
  rewrite list_elem_of_singleton. lia.
Qed.

Lemma sample_allocated pos r g :
  Forall (allocated (sample_store pos r g)) (Component.joints sample_straight).
Proof. repeat apply Forall_cons_2; [by eexists..|apply Forall_nil_2]. Qed.

Lemma doctest_connect :
  connect doctest_endpoint sample_straight doctest_store
  = (Ok doctest_result, doctest_store_after).
Proof. reflexivity. Qed.

(** Shared joints: connecting a selector to the rail it selects from
    moves the anchor's joint along with the rail.  The matched joint,
    object 1, lands where the anchor's joint was, the anchor's joint,
    object 0, is moved on to x = -1, and it is the joint that the result
    exposes. *)
Lemma connect_to_own_part :
  build_own [] = (Ok (own_straight, own_selector), own_store)
  /\ connect own_selector own_straight own_store
     = (Ok (ConnectedComponent (PosArray 0%nat) 0
              [own_selector; own_straight] [0%nat]),
        [Joint.mk (-1, 0, 0)%float 4 false;
         Joint.mk (0, 0, 0)%float 0 true]).
Proof. split; reflexivity. Qed.

(** Against C1 as stated: the doctest's call moves both joints of the
    rail it is given.  The rail's male end, object 2, is at x = 1 before
    the call and at x = 11 after it, and it is this very object that the
    result exposes; the store has three joints before and after. *)
Lemma connect_moves_target :
  build_sample [10; 0; 0]%float 0 true []
  = (Ok (doctest_endpoint, sample_straight), doctest_store)
  /\ connect doctest_endpoint sample_straight doctest_store
     = (Ok doctest_result, doctest_store_after)
  /\ exposed doctest_store sample_straight
     = [Some (Joint.mk (0, 0, 0)%float 4 false);
        Some (Joint.mk (1, 0, 0)%float 0 true)]
  /\ exposed doctest_store_after sample_straight
     = [Some (Joint.mk (10, 0, 0)%float 4 false);
        Some (Joint.mk (11, 0, 0)%float 0 true)]
  /\ veqb (10, 0, 0)%float (0, 0, 0)%float = false
  /\ veqb (11, 0, 0)%float (1, 0, 0)%float = false
  /\ Component.joints doctest_result = [2%nat]
  /\ length doctest_store_after = length doctest_store.
Proof. split_and!; reflexivity. Qed.

(** The frame of the doctest's call, which succeeds. *)
Lemma connect_frame_witness :
  same_tags doctest_store doctest_store_after
  /\ (forall e, Ok doctest_result = Raise e ->
        (forall name, e ≠ AttributeError name) ->
        doctest_store_after = doctest_store)
  /\ (anchor_target doctest_endpoint sample_straight = None ->
      doctest_store_after = doctest_store)
  /\ (forall anchor target,
        anchor_target doctest_endpoint sample_straight
        = Some (anchor, target) ->
        (forall j, j ∉ Component.joints target ->
           doctest_store_after !! j = doctest_store !! j)
        /\ (forall c, Ok doctest_result = Ok c ->
              (forall j, j ∈ Component.joints c ->
                 j ∈ Component.joints target)
              /\ exists j1 J1 j2 J2,
                   matched doctest_store anchor target j1 J1 j2 J2 /\
                   (NoDup (Component.joints target) ->
                    forall j J,
                      j ∈ Component.joints target ->
                      doctest_store !! j = Some J ->
                      doctest_store_after !! j
                      = Some (Joint.mk
                                (vadd (Joint.position J)
                                   (vsub (Joint.position J1)
                                      (Joint.position J2)))
                                (Joint.rotation J) (Joint.is_male J))))).
Proof.
  apply (connect_frame doctest_store doctest_endpoint sample_straight).
  reflexivity.
Defined.

(** The doctest's end point faces one female joint of the rail: no
    ambiguity there. *)
Lemma connect_gender_matching_witness :
  ((exists h',
      connect doctest_endpoint sample_straight doctest_store
      = (Raise AmbiguousConnection, h'))
   <-> length (candidates doctest_store true
                 (Component.joints sample_straight)) ≠ 1%nat)
  /\ (forall h',
        connect doctest_endpoint sample_straight doctest_store
        = (Raise AmbiguousConnection, h') ->
        h' = doctest_store).
Proof.
  apply (connect_gender_matching doctest_store doctest_endpoint
           sample_straight doctest_endpoint sample_straight 0%nat
           (Joint.mk (10, 0, 0)%float 0 true)).
  - reflexivity.
  - reflexivity.
  - reflexivity.
  - apply sample_allocated.
Defined.

(** An end point turned by one step meets the rail's female end at
    orientation 4: 1 + 4 is not 4. *)
Lemma connect_unsupported_orientation_witness :
  connect (sample_endpoint [10; 0; 0]%float 1) sample_straight
    (sample_store (10, 0, 0)%float 1 true)
  = (Raise UnsupportedOrientation, sample_store (10, 0, 0)%float 1 true)
  /\ (forall r h',
        connect (sample_endpoint [10; 0; 0]%float 1) sample_straight
          (sample_store (10, 0, 0)%float 1 true) = (r, h') ->
        exposed h' (sample_endpoint [10; 0; 0]%float 1)
        = exposed (sample_store (10, 0, 0)%float 1 true)
            (sample_endpoint [10; 0; 0]%float 1)
        /\ exposed h' sample_straight
           = exposed (sample_store (10, 0, 0)%float 1 true) sample_straight).
Proof.
  apply (connect_unsupported_orientation
           (sample_store (10, 0, 0)%float 1 true)
           (sample_endpoint [10; 0; 0]%float 1) sample_straight
           (sample_endpoint [10; 0; 0]%float 1) sample_straight
           0%nat 1%nat
           (Joint.mk (10, 0, 0)%float 1 true)
           (Joint.mk (0, 0, 0)%float 4 false)).
  - reflexivity.
  - unfold matched. split_and!; try reflexivity. apply sample_allocated.
  - simpl. lia.
Defined.

(** Against C5 as stated: an end point at x = 0.1 takes the rail's male
    end, which sits at x = 1.  In float64, 0.1 - 1 is -0.9 rounded, and
    1 + (0.1 - 1) is 0.09999999999999998: after the call the matched
    joint is not where the anchor's joint is. *)
Lemma connect_roundtrip_residual :
  build_sample [tenth; 0; 0]%float 4 false []
  = (Ok (sample_endpoint [tenth; 0; 0]%float 4, sample_straight),
     sample_store (tenth, 0, 0)%float 4 false)
  /\ exists c h' J1 J2,
       connect (sample_endpoint [tenth; 0; 0]%float 4) sample_straight
         (sample_store (tenth, 0, 0)%float 4 false) = (Ok c, h')
       /\ matched (sample_store (tenth, 0, 0)%float 4 false)
            (sample_endpoint [tenth; 0; 0]%float 4) sample_straight
            0%nat J1 2%nat J2
       /\ exists J1' J2',
            h' !! 0%nat = Some J1' /\ h' !! 2%nat = Some J2'
            /\ Joint.position J1' = (tenth, 0, 0)%float
            /\ Joint.position J2'
               = (0x1.9999999999998p-4, 0, 0)%float
            /\ veqb (Joint.position J2') (Joint.position J1') = false.
Proof.
  split; [reflexivity|].
  eexists _, _, _, _. split; [vm_compute; reflexivity|]. split.
  - unfold matched. split_and!; try reflexivity. apply sample_allocated.
  - eexists _, _. split_and!; reflexivity.
Qed.

(** The doctest's call moves the rail by the offset (10, 0, 0). *)
Lemma connect_rigid_translation_witness :
  exists j1 J1 j2 J2,
    matched doctest_store doctest_endpoint sample_straight j1 J1 j2 J2 /\
    (forall j, j ∈ Component.joints sample_straight ->
       doctest_store_after !! j
       = translate (offset J1 J2) <$> doctest_store !! j) /\
    (forall j, j ∉ Component.joints sample_straight ->
       doctest_store_after !! j = doctest_store !! j) /\
    doctest_store_after !! j2
    = Some (Joint.mk
              (vadd (Joint.position J2)
                 (vsub (Joint.position J1) (Joint.position J2)))
              (Joint.rotation J2) (Joint.is_male J2)) /\
    (j1 ∉ Component.joints sample_straight ->
     vadd (Joint.position J2) (vsub (Joint.position J1) (Joint.position J2))
     = Joint.position J1 ->
     Joint.position <$> doctest_store_after !! j2
     = Joint.position <$> doctest_store_after !! j1).
Proof.
  apply (connect_rigid_translation doctest_store doctest_endpoint
           sample_straight doctest_endpoint sample_straight doctest_result).
  - reflexivity.
  - reflexivity.
  - apply sample_straight_NoDup.
Defined.

(** Against C6 as stated.  With the rail passed first and the end
    point second, the children are the end point and then the rail: the
    anchor comes first, not the first argument.  And when a selector is
    connected to the rail it selects from, the one joint that the result
    exposes, object 0, is the anchor's own joint. *)
Lemma connect_assembly_counterexample :
  (exists c h',
     connect sample_straight doctest_endpoint doctest_store = (Ok c, h')
     /\ Component.children c = Some [doctest_endpoint; sample_straight]
     /\ Component.joints sample_straight = [1%nat; 2%nat]
     /\ Component.joints doctest_endpoint = [0%nat])
  /\ (exists c h',
        build_own [] = (Ok (own_straight, own_selector), own_store)
        /\ connect own_selector own_straight own_store = (Ok c, h')
        /\ anchor_target own_selector own_straight
           = Some (own_selector, own_straight)
        /\ Component.joints own_selector = [0%nat]
        /\ Component.joints c = [0%nat]).
Proof.
  split.
  - eexists _, _. split; [vm_compute; reflexivity|]. by split_and!.
  - eexists _, _. split; [reflexivity|].
    split; [vm_compute; reflexivity|]. by split_and!.
Qed.

(** The component that the doctest's call assembles. *)
Lemma connect_assembly_witness :
  exists j1 J1 j2 J2 pre post,
    matched doctest_store doctest_endpoint sample_straight j1 J1 j2 J2 /\
    Component.joints doctest_endpoint = [j1] /\
    Component.children doctest_result
    = Some [doctest_endpoint; sample_straight] /\
    (length (Component.joints doctest_endpoint) = 1%nat ->
     Component.children doctest_result
     = Some [doctest_endpoint; sample_straight]) /\
    (length (Component.joints doctest_endpoint) ≠ 1%nat ->
     Component.children doctest_result
     = Some [sample_straight; doctest_endpoint]) /\
    Component.joints sample_straight = pre ++ j2 :: post /\
    Component.joints doctest_result = pre ++ post /\
    (j2 ∉ Component.joints doctest_result) /\
    (forall j, j ∈ Component.joints doctest_result ->
       j ∈ Component.joints sample_straight) /\
    (j1 ∈ Component.joints doctest_result
     <-> j1 ∈ Component.joints sample_straight) /\
    (NoDup (Component.joints sample_straight) ->
     exposed doctest_store_after doctest_result
     = map (fun j =>
              (fun J =>
                 Joint.mk
                   (vadd (Joint.position J)
                      (vsub (Joint.position J1) (Joint.position J2)))
                   (Joint.rotation J) (Joint.is_male J))
              <$> doctest_store !! j)
         (pre ++ post)).
Proof.
  apply (connect_assembly doctest_store doctest_endpoint sample_straight
           doctest_endpoint sample_straight doctest_result
           doctest_store_after).
  - reflexivity.
  - reflexivity.
Defined.

(** Index -1 of the rail selects its last joint, object 2. *)
Lemma SelectedJoint_negative_index_witness :
  exists j s,
    Component.joints sample_straight
      !! Z.to_nat (Z.of_nat (length (Component.joints sample_straight)) + -1)
    = Some j /\
    SelectedJoint sample_straight (-1) doctest_store = (Ok s, doctest_store) /\
    Component.joints s = [j] /\
    Component.children s = Some [sample_straight].
Proof.
  apply (SelectedJoint_negative_index sample_straight (-1) doctest_store).
  - apply sample_allocated.
  - simpl. lia.
Defined.

(** ** Further properties of [connect] *)

Section Selected.
Context (h : heap) (a b anchor target : Component.t).
Hypothesis selected : anchor_target a b = Some (anchor, target).

(** The anchor and the target are the two arguments. *)
Lemma anchor_target_args :
  (anchor = a /\ target = b) \/ (anchor = b /\ target = a).
Proof.
  unfold anchor_target in selected.
  destruct (length (Component.joints a) =? 1)%nat; [left; by simplify_eq|].
  destruct (length (Component.joints b) =? 1)%nat; [right; by simplify_eq|].
  done.
Qed.

Lemma well_built_selected :
  well_built h a -> well_built h b ->
  well_built h anchor /\ well_built h target.
Proof.
  intros Ha Hb. by destruct anchor_target_args as [[-> ->]|[-> ->]].
Qed.

(** A well-built anchor is ready for [_connect]: its joint is in the
    store and it has the two attributes that the result copies. *)
Lemma well_built_anchor_ready :
  well_built h anchor ->
  exists j1 J1 p r,
    Component.joints anchor = [j1] /\ h !! j1 = Some J1 /\
    Component.position anchor = Some p /\ Component.rotation anchor = Some r.
Proof.
  intros (_ & Hall & Hattr).
  destruct (anchor_target_one _ _ _ _ selected) as [j1 Hj1].
  rewrite Hj1 in Hall, Hattr. apply Forall_cons in Hall as [[J1 HJ1] _].
  destruct Hattr as [[p Hp] [r Hr]]; [done|].
  by exists j1, J1, p, r.
Qed.
End Selected.

(** X1.  A component that exposes no joint can never be connected
    again: with it as either argument, [connect] raises
    [RuntimeError("Ambiguous Connection")], whatever the other argument
    and the store are, and the store is as it was. *)
Theorem connect_without_joints (c x : Component.t) (h : heap) :
  Component.joints c = [] ->
  connect c x h = (Raise AmbiguousConnection, h)
  /\ connect x c h = (Raise AmbiguousConnection, h).
Proof.
  intros Hc.
  assert (forall j, Component.joints x !! 0%nat = Some j ->
            _connect x c h = (Raise AmbiguousConnection, h)) as Hx.
  { intros j Hj. unfold _connect. unfold bind at 1.
    rewrite getitem_first, Hj. by rewrite Hc. }
  unfold connect. rewrite Hc. simpl. split.
  - destruct (Nat.eqb_spec (length (Component.joints x)) 1) as [H1|_];
      [|done].
    destruct (Component.joints x) as [|j ?] eqn:Hjs; [done|].
    by apply (Hx j).
  - destruct (Nat.eqb_spec (length (Component.joints x)) 1) as [H1|_];
      [|done].
    destruct (Component.joints x) as [|j ?] eqn:Hjs; [done|].
    by apply (Hx j).
Qed.

(** The two end points joined: the result exposes nothing, and nothing
    can be connected to it. *)
Lemma connect_without_joints_witness :
  connect pair_result sample_straight doctest_store
  = (Raise AmbiguousConnection, doctest_store)
  /\ connect sample_straight pair_result doctest_store
     = (Raise AmbiguousConnection, doctest_store).
Proof.
  apply (connect_without_joints pair_result sample_straight doctest_store).
  reflexivity.
Defined.

(** X2.  A successful [connect] uses up one joint of the target: the
    result exposes one joint fewer than the target does.  So a target
    with a single joint gives a component that exposes nothing.  A
    target with two joints gives a component with one joint: passed
    first to a later [connect] it is the anchor, whatever the second
    argument is; passed second it is the anchor only if the first
    argument does not have exactly one joint, and is the target that
    gets moved if the first argument has exactly one. *)
Theorem connect_joint_count (h : heap) (a b anchor target c : Component.t)
    (h' : heap) :
  anchor_target a b = Some (anchor, target) ->
  connect a b h = (Ok c, h') ->
  S (length (Component.joints c)) = length (Component.joints target)
  /\ (length (Component.joints target) = 1%nat -> Component.joints c = [])
  /\ (length (Component.joints target) = 2%nat ->
      forall x : Component.t,
        anchor_target c x = Some (c, x)
        /\ (length (Component.joints x) ≠ 1%nat ->
            anchor_target x c = Some (c, x))
        /\ (length (Component.joints x) = 1%nat ->
            anchor_target x c = Some (x, c))).
Proof.
  intros Hsel Hrun.
  destruct (connect_Ok_inv h a b anchor target Hsel c h' Hrun)
    as (j1 & J1 & j2 & J2 & p & r & Hm & _ & _ & _ & -> & _).
  destruct Hm as (_ & _ & _ & Hc & _).
  destruct (candidates_singleton _ _ _ _ Hc)
    as (pre & post & Hsplit & Hpre & Hpost & _).
  assert (S (length (leftover j2 (Component.joints target)))
          = length (Component.joints target)) as Hlen.
  { rewrite Hsplit, leftover_split by done.
    rewrite !length_app. simpl. lia. }
  split_and!; simpl; [done| |].
  - intros H1. rewrite H1 in Hlen.
    by destruct (leftover j2 (Component.joints target)).
  - intros H2 x. rewrite H2 in Hlen. unfold anchor_target. simpl.
    injection Hlen as ->. split_and!; [done| |].
    + intros Hx. by destruct (Nat.eqb_spec (length (Component.joints x)) 1).
    + intros Hx. by rewrite Hx.
Qed.

Lemma connect_joint_count_witness :
  S (length (Component.joints doctest_result))
  = length (Component.joints sample_straight)
  /\ (length (Component.joints sample_straight) = 1%nat ->
      Component.joints doctest_result = [])
  /\ (length (Component.joints sample_straight) = 2%nat ->
      forall x : Component.t,
        anchor_target doctest_result x = Some (doctest_result, x)
        /\ (length (Component.joints x) ≠ 1%nat ->
            anchor_target x doctest_result = Some (doctest_result, x))
        /\ (length (Component.joints x) = 1%nat ->
            anchor_target x doctest_result = Some (x, doctest_result))).
Proof.
  apply (connect_joint_count doctest_store doctest_endpoint sample_straight
           doctest_endpoint sample_straight doctest_result
           doctest_store_after).
  - reflexivity.
  - reflexivity.
Defined.

(** X3.  The component that [connect] returns is a
    [ConnectedComponent] whose [position] and [rotation] are those of
    the anchor, which therefore has both attributes. *)
Theorem connect_result_frame (h : heap) (a b anchor target c : Component.t)
    (h' : heap) :
  anchor_target a b = Some (anchor, target) ->
  connect a b h = (Ok c, h') ->
  Component.class c = ConnectedComponent_cls
  /\ is_Some (Component.position anchor)
  /\ is_Some (Component.rotation anchor)
  /\ Component.position c = Component.position anchor
  /\ Component.rotation c = Component.rotation anchor.
Proof.
  intros Hsel Hrun.
  destruct (connect_Ok_inv h a b anchor target Hsel c h' Hrun)
    as (j1 & J1 & j2 & J2 & p & r & _ & _ & Hp & Hr & -> & _).
  rewrite Hp, Hr. by split_and!.
Qed.

Lemma connect_result_frame_witness :
  Component.class doctest_result = ConnectedComponent_cls
  /\ is_Some (Component.position doctest_endpoint)
  /\ is_Some (Component.rotation doctest_endpoint)
  /\ Component.position doctest_result = Component.position doctest_endpoint
  /\ Component.rotation doctest_result = Component.rotation doctest_endpoint.
Proof.
  apply (connect_result_frame doctest_store doctest_endpoint sample_straight
           doctest_endpoint sample_straight doctest_result
           doctest_store_after).
  - reflexivity.
  - reflexivity.
Defined.

(** Between well-built components [connect] ends in one of three ways. *)
Lemma connect_well_built_cases (h : heap) (a b anchor target : Component.t) :
  well_built h a -> well_built h b ->
  anchor_target a b = Some (anchor, target) ->
  exists j1 J1 p r,
    Component.joints anchor = [j1] /\ h !! j1 = Some J1 /\
    Component.position anchor = Some p /\
    Component.rotation anchor = Some r /\
    ((length (candidates h (Joint.is_male J1) (Component.joints target))
      ≠ 1%nat /\
      connect a b h = (Raise AmbiguousConnection, h))
     \/ (exists j2 J2,
           matched h anchor target j1 J1 j2 J2 /\
           Joint.rotation J1 + Joint.rotation J2 ≠ 4 /\
           connect a b h = (Raise NotImplementedError, h))
     \/ (exists j2 J2,
           matched h anchor target j1 J1 j2 J2 /\
           Joint.rotation J1 + Joint.rotation J2 = 4 /\
           connect a b h
           = (Ok (ConnectedComponent p r [anchor; target]
                    (leftover j2 (Component.joints target))),
              translate_all (offset J1 J2) (Component.joints target) h))).
Proof.
  intros Ha Hb Hsel.
  destruct (well_built_selected h a b anchor target Hsel Ha Hb)
    as [Hanchor (_ & Hall & _)].
  destruct (well_built_anchor_ready h a b anchor target Hsel Hanchor)
    as (j1 & J1 & p & r & Hj1 & HJ1 & Hp & Hr).
  exists j1, J1, p, r. split_and!; try done.
  assert (Component.joints anchor !! 0%nat = Some j1) as Hfirst
    by (by rewrite Hj1).
  destruct (decide (length (candidates h (Joint.is_male J1)
                              (Component.joints target)) = 1%nat))
    as [Hone|Hmany].
  - right.
    destruct (candidates h (Joint.is_male J1) (Component.joints target))
      as [|j2 [|? ?]] eqn:Hc; try done.
    assert (allocated h j2) as [J2 HJ2].
    { rewrite Forall_forall in Hall. apply Hall.
      eapply (candidates_elem h (Joint.is_male J1)).
      rewrite Hc. by apply list_elem_of_singleton. }
    assert (matched h anchor target j1 J1 j2 J2) as Hm by done.
    destruct (decide (Joint.rotation J1 + Joint.rotation J2 = 4))
      as [Hsum|Hsum].
    + right. exists j2, J2. split_and!; try done.
      by apply (connect_succeeds h a b anchor target Hsel j1 J1 j2 J2).
    + left. exists j2, J2. split_and!; try done.
      rewrite connect_anchor_target, Hsel. by eapply _connect_unsupported.
  - left. split; [done|].
    rewrite connect_anchor_target, Hsel. by eapply _connect_ambiguous.
Qed.

(** X4.  Between components built by the module, a [connect] that
    fails raises [RuntimeError("Ambiguous Connection")] or
    [NotImplementedError] and nothing else, and it has not moved any
    joint: the store is exactly as before the call. *)
Theorem connect_raises_cleanly (h : heap) (a b : Component.t) (e : exn)
    (h' : heap) :
  well_built h a -> well_built h b ->
  connect a b h = (Raise e, h') ->
  h' = h /\ (e = AmbiguousConnection \/ e = NotImplementedError).
Proof.
  intros Ha Hb Hrun.
  destruct (anchor_target a b) as [[anchor target]|] eqn:Hsel.
  - destruct (connect_well_built_cases h a b anchor target Ha Hb Hsel)
      as (j1 & J1 & p & r & _ & _ & _ & _ &
          [[_ Hr]|[(j2 & J2 & _ & _ & Hr)|(j2 & J2 & _ & _ & Hr)]]);
      rewrite Hr in Hrun; simplify_eq; by eauto.
  - rewrite connect_anchor_target, Hsel in Hrun.
    unfold raise in Hrun. simplify_eq. by eauto.
Qed.

(** Two rails: ambiguous, and nothing has moved. *)
Lemma connect_raises_cleanly_witness :
  doctest_store = doctest_store
  /\ (AmbiguousConnection = AmbiguousConnection
      \/ AmbiguousConnection = NotImplementedError).
Proof.
  apply (connect_raises_cleanly doctest_store sample_straight sample_straight
           AmbiguousConnection doctest_store).
  - split_and!; [apply sample_straight_NoDup|apply sample_allocated|done].
  - split_and!; [apply sample_straight_NoDup|apply sample_allocated|done].
  - reflexivity.
Defined.

(** X5.  Between components built by the module, [connect] returns a
    component exactly when it can choose an anchor, exactly one joint of
    the target has the other gender, and the orientations of the two
    joints add up to 4. *)
Theorem connect_succeeds_iff (h : heap) (a b : Component.t) :
  well_built h a -> well_built h b ->
  (exists c h', connect a b h = (Ok c, h'))
  <-> (exists anchor target j1 J1 j2 J2,
         anchor_target a b = Some (anchor, target) /\
         matched h anchor target j1 J1 j2 J2 /\
         Joint.rotation J1 + Joint.rotation J2 = 4).
Proof.
  intros Ha Hb. split.
  - intros (c & h' & Hrun).
    destruct (anchor_target a b) as [[anchor target]|] eqn:Hsel.
    + destruct (connect_Ok_inv h a b anchor target Hsel c h' Hrun)
        as (j1 & J1 & j2 & J2 & p & r & Hm & Hsum & _).
      by exists anchor, target, j1, J1, j2, J2.
    + by rewrite connect_anchor_target, Hsel in Hrun.
  - intros (anchor & target & j1 & J1 & j2 & J2 & Hsel & Hm & Hsum).
    destruct (well_built_selected h a b anchor target Hsel Ha Hb)
      as [Hanchor _].
    destruct (well_built_anchor_ready h a b anchor target Hsel Hanchor)
      as (j1' & J1' & p & r & _ & _ & Hp & Hr).
    eexists _, _.
    by apply (connect_succeeds h a b anchor target Hsel j1 J1 j2 J2 p r).
Qed.

Lemma connect_succeeds_iff_witness :
  (exists c h', connect doctest_endpoint sample_straight doctest_store
                = (Ok c, h'))
  <-> (exists anchor target j1 J1 j2 J2,
         anchor_target doctest_endpoint sample_straight
         = Some (anchor, target) /\
         matched doctest_store anchor target j1 J1 j2 J2 /\
         Joint.rotation J1 + Joint.rotation J2 = 4).
Proof.
  apply (connect_succeeds_iff doctest_store doctest_endpoint sample_straight).
  - split_and!; simpl.
    + apply NoDup_singleton.
    + apply Forall_cons_2; [by eexists|apply Forall_nil_2].
    + intros _. split; by eexists.
  - split_and!; [apply sample_straight_NoDup|apply sample_allocated|done].
Defined.

(** X6.  Orientations are kept in [0, 8) but the test is
    [j1.rotation + j2.rotation != 4] on the integers: in a store of
    normalised joints a successful [connect] has matched an anchor joint
    of orientation at most 4 with a joint of the other gender whose
    orientation is 4 minus the anchor's.  So a joint of orientation 5, 6
    or 7 is never connected. *)
Theorem connect_orientation_pairs (h : heap)
    (a b anchor target c : Component.t) (h' : heap) :
  normalised h ->
  anchor_target a b = Some (anchor, target) ->
  connect a b h = (Ok c, h') ->
  exists j1 J1 j2 J2,
    matched h anchor target j1 J1 j2 J2 /\
    0 <= Joint.rotation J1 <= 4 /\
    Joint.rotation J2 = 4 - Joint.rotation J1 /\
    Joint.is_male J2 = negb (Joint.is_male J1).
Proof.
  intros Hn Hsel Hrun.
  destruct (connect_Ok_inv h a b anchor target Hsel c h' Hrun)
    as (j1 & J1 & j2 & J2 & p & r & Hm & Hsum & _).
  exists j1, J1, j2, J2.
  pose proof Hm as (_ & HJ1 & _ & Hc & HJ2).
  unfold normalised in Hn. rewrite Forall_lookup in Hn.
  pose proof (Hn _ _ HJ1) as Hr1. pose proof (Hn _ _ HJ2) as Hr2.
  simpl in Hr1, Hr2.
  destruct (candidates_singleton _ _ _ _ Hc) as (_ & _ & _ & _ & _ & Hd).
  unfold differs in Hd. rewrite HJ2 in Hd.
  split_and!; [done|lia|lia|lia|].
  by destruct (Joint.is_male J2), (Joint.is_male J1).
Qed.

Lemma connect_orientation_pairs_witness :
  exists j1 J1 j2 J2,
    matched doctest_store doctest_endpoint sample_straight j1 J1 j2 J2 /\
    0 <= Joint.rotation J1 <= 4 /\
    Joint.rotation J2 = 4 - Joint.rotation J1 /\
    Joint.is_male J2 = negb (Joint.is_male J1).
Proof.
  apply (connect_orientation_pairs doctest_store doctest_endpoint
           sample_straight doctest_endpoint sample_straight doctest_result
           doctest_store_after).
  - repeat apply Forall_cons_2; [by compute..|apply Forall_nil_2].
  - reflexivity.
  - reflexivity.
Defined.

(** With one joint on each side, what succeeds in one order succeeds in
    the other. *)
Lemma connect_swap (h : heap) (a b c : Component.t) (h' : heap) :
  well_built h a -> well_built h b ->
  length (Component.joints a) = 1%nat ->
  length (Component.joints b) = 1%nat ->
  connect a b h = (Ok c, h') ->
  exists c' h'', connect b a h = (Ok c', h'').
Proof.
  intros Ha Hb Hla Hlb Hrun.
  assert (anchor_target a b = Some (a, b)) as Hab
    by (unfold anchor_target; by rewrite Hla).
  assert (anchor_target b a = Some (b, a)) as Hba
    by (unfold anchor_target; by rewrite Hlb).
  destruct (connect_Ok_inv h a b a b Hab c h' Hrun)
    as (j1 & J1 & j2 & J2 & _ & _ & Hm & Hsum & _).
  destruct Hm as (Hj1 & HJ1 & _ & Hc & HJ2).
  destruct (Component.joints a) as [|ja [|? ?]] eqn:Hja; try done.
  destruct (Component.joints b) as [|jb [|? ?]] eqn:Hjb; try done.
  injection Hj1 as ->.
  destruct (candidates_singleton _ _ _ _ Hc)
    as (pre & post & Hsplit & _ & _ & Hd).
  assert (j2 = jb) as ->.
  { destruct pre as [|? [|? ?]]; simpl in Hsplit; by simplify_eq. }
  destruct (well_built_anchor_ready h b a b a Hba Hb)
    as (jb' & J2' & p & r & _ & _ & Hp & Hr).
  unfold differs in Hd. rewrite HJ2 in Hd.
  eexists _, _.
  apply (connect_succeeds h b a b a Hba jb J2 j1 J1 p r); try done.
  - unfold matched. rewrite Hja, Hjb. split_and!; try done.
    + apply Forall_cons_2; [by eexists|apply Forall_nil_2].
    + unfold candidates. simpl. unfold differs. rewrite HJ1.
      by destruct (Joint.is_male J1), (Joint.is_male J2).
  - lia.
Qed.

(** X7.  When both arguments expose exactly one joint, [connect(a, b)]
    returns a component if and only if [connect(b, a)] does.  The two
    results differ: the first argument is the anchor, so it comes first
    among the children and it is the second argument that is moved. *)
Theorem connect_either_order (h : heap) (a b : Component.t) :
  well_built h a -> well_built h b ->
  length (Component.joints a) = 1%nat ->
  length (Component.joints b) = 1%nat ->
  ((exists c h', connect a b h = (Ok c, h'))
   <-> (exists c h', connect b a h = (Ok c, h')))
  /\ (forall c h', connect a b h = (Ok c, h') ->
        Component.children c = Some [a; b] /\
        forall j, j ∉ Component.joints b -> h' !! j = h !! j)
  /\ (forall c h', connect b a h = (Ok c, h') ->
        Component.children c = Some [b; a] /\
        forall j, j ∉ Component.joints a -> h' !! j = h !! j).
Proof.
  intros Ha Hb Hla Hlb.
  assert (forall x y : Component.t,
            length (Component.joints x) = 1%nat ->
            forall c h', connect x y h = (Ok c, h') ->
              Component.children c = Some [x; y] /\
              forall j, j ∉ Component.joints y -> h' !! j = h !! j) as Hmove.
  { intros x y Hlx c h' Hrun.
    assert (anchor_target x y = Some (x, y)) as Hxy
      by (unfold anchor_target; by rewrite Hlx).
    destruct (connect_Ok_inv h x y x y Hxy c h' Hrun)
      as (j1 & J1 & j2 & J2 & p & r & _ & _ & _ & _ & -> & ->).
    split; [done|]. intros j Hj. by apply translate_all_notin. }
  split_and!.
  - split; intros (c & h' & Hrun); by eapply connect_swap.
  - by apply Hmove.
  - by apply Hmove.
Qed.

Lemma pair_well_built :
  well_built pair_store pair_male /\ well_built pair_store pair_female.
Proof.
  split; (split_and!; simpl;
          [apply NoDup_singleton
          |apply Forall_cons_2; [by eexists|apply Forall_nil_2]
          |intros _; split; by eexists]).
Qed.

(** The two facing end points connect in either order. *)
Lemma connect_either_order_witness :
  ((exists c h', connect pair_male pair_female pair_store = (Ok c, h'))
   <-> (exists c h', connect pair_female pair_male pair_store = (Ok c, h')))
  /\ (forall c h', connect pair_male pair_female pair_store = (Ok c, h') ->
        Component.children c = Some [pair_male; pair_female] /\
        forall j, j ∉ Component.joints pair_female ->
          h' !! j = pair_store !! j)
  /\ (forall c h', connect pair_female pair_male pair_store = (Ok c, h') ->
        Component.children c = Some [pair_female; pair_male] /\
        forall j, j ∉ Component.joints pair_male ->
          h' !! j = pair_store !! j).
Proof.
  apply (connect_either_order pair_store pair_male pair_female).
  - apply pair_well_built.
  - apply pair_well_built.
  - reflexivity.
  - reflexivity.
Defined.

(** ** Further properties of [SelectedJoint] *)

Lemma py_index_None {A} (xs : list A) (i : Z) :
  py_index xs i = None
  <-> i < - Z.of_nat (length xs) \/ Z.of_nat (length xs) <= i.
Proof.
  unfold py_index.
  destruct (Z.leb_spec 0 i).
  - rewrite lookup_ge_None. lia.
  - destruct (Z.leb_spec (- Z.of_nat (length xs)) i).
    + rewrite lookup_ge_None. lia.
    + split; [lia|done].
Qed.

Lemma py_index_elem {A} (xs : list A) (i : Z) (x : A) :
  py_index xs i = Some x -> x ∈ xs.
Proof.
  unfold py_index.
  destruct (0 <=? i); [by apply list_elem_of_lookup_2|].
  destruct (- Z.of_nat (length xs) <=? i); [|done].
  by apply list_elem_of_lookup_2.
Qed.

(** X8.  [SelectedJoint(part, i)] raises [IndexError] exactly when [i]
    is outside the range of Python's indices, below [-n] or at [n] and
    above for a part with [n] joints; the store is then as it was. *)
Theorem SelectedJoint_IndexError_iff (part : Component.t) (i : Z) (h : heap) :
  (SelectedJoint part i h = (Raise IndexError, h)
   <-> i < - Z.of_nat (length (Component.joints part))
       \/ Z.of_nat (length (Component.joints part)) <= i)
  /\ (forall h', SelectedJoint part i h = (Raise IndexError, h') -> h' = h).
Proof.
  split; [split|].
  - intros Hrun.
    destruct (SelectedJoint_inv _ _ _ _ _ Hrun) as [_ [[_ Hi]|[[=] _]]].
    by apply py_index_None.
  - intros Hi. apply py_index_None in Hi.
    unfold SelectedJoint, bind, getitem. by rewrite Hi.
  - intros h' Hrun. by destruct (SelectedJoint_inv _ _ _ _ _ Hrun) as [-> _].
Qed.

(** X9.  A selector shares its joint with the part it wraps, and
    [connect] moves the joints of its target only.  So connecting onto
    a selector moves the selected joint of the wrapped part and nothing
    else: the part's other joints stay where they were, and the result
    exposes no joint at all. *)
Theorem connect_onto_selector (h : heap) (part : Component.t) (i : Z)
    (s : Component.t) (h0 : heap) (a c : Component.t) (h' : heap) :
  SelectedJoint part i h = (Ok s, h0) ->
  length (Component.joints a) = 1%nat ->
  connect a s h0 = (Ok c, h') ->
  Component.joints c = []
  /\ exists j1 J1 j J,
       Component.joints a = [j1] /\ h !! j1 = Some J1 /\
       Component.joints s = [j] /\ j ∈ Component.joints part /\
       h !! j = Some J /\
       h' !! j = Some (translate (offset J1 J) J) /\
       forall k, k ≠ j -> h' !! k = h !! k.
Proof.
  intros Hsel Hla Hrun.
  destruct (SelectedJoint_inv _ _ _ _ _ Hsel) as [-> (j & Hi & _ & ->)].
  assert (anchor_target a
            (Component.mk SelectedJoint_cls (Some (PosArray j)) (Some 0)
               (Some [part]) [j])
          = Some (a, Component.mk SelectedJoint_cls (Some (PosArray j))
                       (Some 0) (Some [part]) [j])) as Hat
    by (unfold anchor_target; by rewrite Hla).
  destruct (connect_Ok_inv _ _ _ _ _ Hat c h' Hrun)
    as (j1 & J1 & j2 & J2 & p & r & Hm & _ & _ & _ & -> & ->).
  destruct Hm as (Hj1 & HJ1 & _ & Hc & HJ2).
  assert (j2 = j) as ->.
  { cbn [Component.joints] in Hc.
    assert (j2 ∈ candidates h (Joint.is_male J1) [j]) as Hin
      by (rewrite Hc; by apply list_elem_of_singleton).
    apply candidates_elem in Hin as [Hin _].
    by apply list_elem_of_singleton in Hin. }
  simpl in *.
  split.
  - unfold leftover. simpl. by rewrite Nat.eqb_refl.
  - exists j1, J1, j, J2. split_and!; try done.
    + destruct (Component.joints a) as [|? [|? ?]]; simpl in *; by simplify_eq.
    + by eapply py_index_elem.
    + by rewrite list_lookup_alter_eq, HJ2.
    + intros k Hk. by apply list_lookup_alter_ne.
Qed.

(** The doctest's end point connected onto a selector of the rail's
    female end: that end is moved to x = 10, the rail's male end stays
    at x = 1. *)
Lemma connect_onto_selector_witness :
  Component.joints
    (ConnectedComponent (PosTuple [10; 0; 0]%float) 0
       [doctest_endpoint;
        Component.mk SelectedJoint_cls (Some (PosArray 1%nat)) (Some 0)
          (Some [sample_straight]) [1%nat]] []) = []
  /\ exists j1 J1 j J,
       Component.joints doctest_endpoint = [j1] /\
       doctest_store !! j1 = Some J1 /\
       Component.joints
         (Component.mk SelectedJoint_cls (Some (PosArray 1%nat)) (Some 0)
            (Some [sample_straight]) [1%nat]) = [j] /\
       j ∈ Component.joints sample_straight /\
       doctest_store !! j = Some J /\
       [Joint.mk (10, 0, 0)%float 0 true;
        Joint.mk (10, 0, 0)%float 4 false;
        Joint.mk (1, 0, 0)%float 0 true] !! j
       = Some (translate (offset J1 J) J) /\
       forall k, k ≠ j ->
         [Joint.mk (10, 0, 0)%float 0 true;
          Joint.mk (10, 0, 0)%float 4 false;
          Joint.mk (1, 0, 0)%float 0 true] !! k = doctest_store !! k.
Proof.
  apply (connect_onto_selector doctest_store sample_straight 0
           (Component.mk SelectedJoint_cls (Some (PosArray 1%nat)) (Some 0)
              (Some [sample_straight]) [1%nat])
           doctest_store doctest_endpoint).
  - reflexivity.
  - reflexivity.
  - reflexivity.
Defined.

(** ** Further properties of the constructors *)

Lemma fresh_not_allocated (h : heap) (k : nat) :
  ¬ allocated h (length h + k)%nat.
Proof.
  unfold allocated. rewrite lookup_ge_None_2 by lia.
  by intros [? ?].
Qed.

Lemma allocated_grow (h l : heap) (j : jref) :
  allocated h j -> allocated (h ++ l) j.
Proof.
  intros [J HJ]. exists J. by apply lookup_app_l_Some.
Qed.

Lemma well_built_grow (h l : heap) (c : Component.t) :
  well_built h c -> well_built (h ++ l) c.
Proof.
  intros (Hnd & Hall & Hattr). split_and!; [done| |done].
  eapply Forall_impl; [exact Hall|]. intros j. apply allocated_grow.
Qed.

(** X10.  [EndPoint(position, rotation, is_male)] wants exactly three
    coordinates: otherwise the assertion of [Joint] fails and nothing is
    allocated.  With three coordinates it appends one joint to the
    store, leaving every existing joint as it was, and returns a
    component whose single joint is that new object.  The joint holds
    the orientation modulo 8, while the component's own [rotation]
    attribute keeps the integer as it was passed. *)
Theorem EndPoint_builds (pos : list float) (r : Z) (g : bool) (h : heap) :
  (length pos ≠ 3%nat -> EndPoint pos r g h = (Raise AssertionError, h))
  /\ (forall x y z, pos = [x; y; z] ->
        exists c j,
          EndPoint pos r g h
          = (Ok c, h ++ [Joint.mk (x, y, z) (r mod 8) g]) /\
          Component.joints c = [j] /\
          ¬ allocated h j /\
          (h ++ [Joint.mk (x, y, z) (r mod 8) g]) !! j
          = Some (Joint.mk (x, y, z) (r mod 8) g) /\
          Component.position c = Some (PosTuple pos) /\
          Component.rotation c = Some r /\
          Component.children c = None).
Proof.
  split.
  - intros Hlen. unfold EndPoint, bind.
    by destruct pos as [|x [|y [|z [|? ?]]]].
  - intros x y z ->. eexists _, (length h).
    split; [apply EndPoint_run|]. split_and!; try done.
    + rewrite <- (Nat.add_0_r (length h)). apply fresh_not_allocated.
    + by apply list_lookup_middle.
Qed.

(** X11.  [Straight()] always succeeds.  It appends two joints to the
    store, leaving every existing joint as it was: a female one at the
    origin with orientation 4 and a male one at (1, 0, 0) with
    orientation 0.  The component it returns lists these two new
    objects, in this order, and has none of the attributes [position],
    [rotation] and [children]. *)
Theorem Straight_builds (h : heap) :
  exists c jf jm,
    Straight h
    = (Ok c, h ++ [Joint.mk (0, 0, 0)%float 4 false;
                   Joint.mk (1, 0, 0)%float 0 true]) /\
    Component.joints c = [jf; jm] /\
    jf ≠ jm /\ ¬ allocated h jf /\ ¬ allocated h jm /\
    exposed (h ++ [Joint.mk (0, 0, 0)%float 4 false;
                   Joint.mk (1, 0, 0)%float 0 true]) c
    = [Some (Joint.mk (0, 0, 0)%float 4 false);
       Some (Joint.mk (1, 0, 0)%float 0 true)] /\
    Component.position c = None /\
    Component.rotation c = None /\
    Component.children c = None.
Proof.
  eexists _, (length h), (S (length h)).
  split; [apply Straight_run|]. split_and!; try done.
  - rewrite <- (Nat.add_0_r (length h)). apply fresh_not_allocated.
  - rewrite <- Nat.add_1_r. apply fresh_not_allocated.
  - unfold exposed. simpl. f_equal; [|f_equal].
    + by apply list_lookup_middle.
    + rewrite <- Nat.add_1_r. by rewrite lookup_fresh.
Qed.

(** X12.  Every component that the module returns is well built in the
    store it is returned with: it lists no joint twice, its joints are
    in the store, and if it has a single joint it has the [position] and
    [rotation] that an anchor needs.  This holds for [EndPoint],
    [Straight] and [SelectedJoint], and for [connect] when its two
    arguments are well built. *)
Theorem returned_components_well_built :
  (forall pos r g h c h',
     EndPoint pos r g h = (Ok c, h') -> well_built h' c)
  /\ (forall h c h', Straight h = (Ok c, h') -> well_built h' c)
  /\ (forall part i h s h',
        SelectedJoint part i h = (Ok s, h') -> well_built h' s)
  /\ (forall h a b c h',
        well_built h a -> well_built h b ->
        connect a b h = (Ok c, h') -> well_built h' c).
Proof.
  split_and!.
  - apply EndPoint_well_built.
  - apply Straight_well_built.
  - apply SelectedJoint_well_built.
  - apply connect_well_built.
Qed.

(** X13.  A well-built component stays well built whatever the module
    does next and however that ends: the constructors only append to the
    store, [SelectedJoint] leaves it alone, and [connect] changes
    positions only. *)
Theorem well_built_stable (h : heap) (c0 : Component.t) :
  well_built h c0 ->
  (forall pos r g res h',
     EndPoint pos r g h = (res, h') -> well_built h' c0)
  /\ (forall res h', Straight h = (res, h') -> well_built h' c0)
  /\ (forall part i res h',
        SelectedJoint part i h = (res, h') -> well_built h' c0)
  /\ (forall a b res h', connect a b h = (res, h') -> well_built h' c0).
Proof.
  intros Hc0. split_and!.
  - intros pos r g res h'. unfold EndPoint, bind. intros Hrun.
    destruct (Joint pos r g h) as [[j|e] h1] eqn:HJ.
    + destruct (Joint_inv _ _ _ _ _ _ HJ)
        as [[[=] _]|(x & y & z & _ & _ & ->)].
      injection Hrun as _ <-. by apply well_built_grow.
    + destruct (Joint_inv _ _ _ _ _ _ HJ)
        as [[_ ->]|(x & y & z & _ & [=] & _)].
      by injection Hrun as _ <-.
  - intros res h'. rewrite Straight_run. intros [= _ <-].
    by apply well_built_grow.
  - intros part i res h' Hrun.
    by destruct (SelectedJoint_inv _ _ _ _ _ Hrun) as [-> _].
  - intros a b res h' Hrun.
    eapply well_built_same_tags; [by eapply connect_same_tags|done].
Qed.

(** The doctest's rail stays well built through the doctest's call. *)
Lemma well_built_stable_witness :
  (forall pos r g res h',
     EndPoint pos r g doctest_store = (res, h') ->
     well_built h' sample_straight)
  /\ (forall res h',
        Straight doctest_store = (res, h') -> well_built h' sample_straight)
  /\ (forall part i res h',
        SelectedJoint part i doctest_store = (res, h') ->
        well_built h' sample_straight)
  /\ (forall a b res h',
        connect a b doctest_store = (res, h') ->
        well_built h' sample_straight).
Proof.
  apply (well_built_stable doctest_store sample_straight).
  split_and!; [apply sample_straight_NoDup|apply sample_allocated|done].
Defined.

(** ** Laying track: one more rail *)

Section Extend.
Context (h : heap) (c s : Component.t) (j jf jm : jref) (J : Joint.t).
Context (p : posval) (r : Z).
Hypothesis c_joints : Component.joints c = [j].
Hypothesis c_position : Component.position c = Some p.
Hypothesis c_rotation : Component.rotation c = Some r.
Hypothesis s_joints : Component.joints s = [jf; jm].
Hypothesis ends_distinct : jf ≠ jm.
Hypothesis not_female_end : j ≠ jf.
Hypothesis not_male_end : j ≠ jm.
Hypothesis at_j : h !! j = Some J.
Hypothesis at_jf : h !! jf = Some (Joint.mk (0, 0, 0)%float 4 false).
Hypothesis at_jm : h !! jm = Some (Joint.mk (1, 0, 0)%float 0 true).





End Extend.





